(** * pyxem library generators: a shallow embedding

    Embedding of [pyxem/generators/library_generator.py]:
    [DiffractionLibraryGenerator.get_diffraction_library] and
    [VectorLibraryGenerator.get_vector_library].

    Python objects are records, dictionaries are insertion-ordered
    association lists, exceptions are the left summand of a sum, and the
    mutable crystal structures live in a store indexed by object identity, so
    that two phases may share one structure object. *)

From Stdlib Require Import ZArith String Bool Arith Lia List Sorting.Sorted.
Import ListNotations.

Set Implicit Arguments.

(** ** Python dictionaries

    A [dict] keeps its keys in insertion order; assigning to a key that is
    present replaces the value in place, assigning to a new key appends. *)

Module Dict.
Section Dict.
Variables K V : Type.
Variable K_eq_dec : forall x y : K, {x = y} + {x <> y}.

Definition dict := list (K * V).

Definition keys (d : dict) : list K := map fst d.

Fixpoint get (k : K) (d : dict) : option V :=
  match d with
  | [] => None
  | (k', v) :: d' => if K_eq_dec k k' then Some v else get k d'
  end.

Fixpoint set (k : K) (v : V) (d : dict) : dict :=
  match d with
  | [] => [(k, v)]
  | (k', v') :: d' =>
      if K_eq_dec k k' then (k', v) :: d' else (k', v') :: set k v d'
  end.
End Dict.
End Dict.

Arguments Dict.get {K V} K_eq_dec k d.
Arguments Dict.set {K V} K_eq_dec k v d.
Arguments Dict.keys {K V} d.

(** ** Exceptions *)

Inductive exn : Type :=
| IndexError
| KeyError
| AttributeError (attr : string)
| ValueError
| SimulationFailure (code : nat).

(** ** External collaborators: numbers and opaque data

    [F] is the type of Python floats and [PhaseId] the type of phase keys.
    The numeric kernel (numpy) and the rotation builder (transforms3d) are
    not part of the generators: they are operations of this class. *)

Class Numerics : Type := {
  F : Type;
  F_eq_dec : forall x y : F, {x = y} + {x <> y};
  PhaseId : Type;
  PhaseId_eq_dec : forall x y : PhaseId, {x = y} + {x <> y};
  Matrix : Type;
  Atoms : Type;
  Raw : Type;
  Hkl : Type;
  Vec3 : Type;
  np_deg2rad : F -> F;
  np_add : F -> F -> F;
  np_rint : F -> F;
  astype_int : F -> Z;
  np_sqrt : F -> F;
  np_dot : list F -> list F -> F;
  euler2mat : F -> F -> F -> string -> Matrix
}.

(** [diffpy.structure.lattice.Lattice(a, b, c, alpha, beta, gamma, baserot)]:
    an object holding the six cell parameters and the base rotation it was
    constructed with. *)

Module Lattice.
Record t {N : Numerics} : Type := Lattice {
  a : F; b : F; c : F;
  alpha : F; beta : F; gamma : F;
  baserot : Matrix
}.
Arguments Lattice {N} a b c alpha beta gamma baserot.
End Lattice.

(** The simulation object returned by the calculator: a settable
    [calibration] attribute, an [intensities] vector and the remaining
    payload. *)

Module DiffractionSimulation.
Record t {N : Numerics} : Type := DiffractionSimulation {
  raw : Raw;
  calibration : F;
  intensities : list F
}.

(** [data.calibration = value] *)
Definition set_calibration {N : Numerics} (data : t) (value : F) : t :=
  {| raw := raw data; calibration := value; intensities := intensities data |}.
End DiffractionSimulation.

(** ** External collaborators: geometry

    [move_atoms old new xyz] is the recomputation of the fractional atom
    coordinates that [Structure.placeInLattice] performs;
    [calibrated_coordinates] is the property of the simulation object (it
    depends on the calibration set on it), an N x (>= 2) array given row by
    row as its first two columns and the remaining ones. *)

Class Externals {N : Numerics} : Type := {
  move_atoms : Lattice.t -> Lattice.t -> Atoms -> Atoms;
  reciprocal : Lattice.t -> Lattice.t;
  get_points_in_sphere : Lattice.t -> F -> list Hkl * list Vec3 * list F;
  get_angle_cartesian : Vec3 -> Vec3 -> F;
  calibrated_coordinates : DiffractionSimulation.t -> list (F * F * list F)
}.

(** The exceptions of the simulation object.  The assignment
    [data.calibration = value] goes through a property setter that may
    reject the value, and the expression
    [np.rint(data.calibrated_coordinates[:, :2] + half_shape).astype(int)]
    may raise on the array the object hands out, for instance when it has a
    single axis.  [calibration_error data value] is the exception of the
    assignment and [coordinates_error data half_shape] the exception of the
    expression, if any. *)

Record SimulationChecks {N : Numerics} : Type := {
  calibration_error : DiffractionSimulation.t -> F -> option exn;
  coordinates_error : DiffractionSimulation.t -> F * F -> option exn
}.

(** [diffpy.structure.Structure]: a mutable object with a [lattice]
    attribute; [placeInLattice] installs the new lattice and re-expresses the
    atoms in it. *)

Module Structure.
Record t {N : Numerics} : Type := Structure {
  lattice : Lattice.t;
  atoms : Atoms
}.

Definition placeInLattice {N : Numerics} {E : Externals}
    (self : t) (new_lattice : Lattice.t) : t :=
  {| lattice := new_lattice;
     atoms := move_atoms (lattice self) new_lattice (atoms self) |}.
End Structure.

(** Object identity of a structure in the store. *)
Definition ref := nat.

Section Generators.
Context {N : Numerics} {E : Externals}.

Definition Orientation := list F.

Definition Orientation_eq_dec : forall x y : Orientation, {x = y} + {x <> y} :=
  list_eq_dec F_eq_dec.

(** *** Input containers *)

(** The mapping found in the [struct_lib] attribute: phase key to
    (structure, orientations).  Being a Python object it may or may not
    carry the attributes [indentifiers] and [structures] that the
    generators read from it. *)
Record StructLib : Type := {
  sl_items : Dict.dict PhaseId (ref * list Orientation);
  sl_indentifiers : option (list PhaseId);
  sl_structures : option (list ref)
}.

(** Modelled from the spec: the [StructureLibrary] class is not among the
    sources; it exposes the mapping as [struct_lib] and carries the
    parallel attributes [identifiers] and [structures]. *)
Record StructureLibrary : Type := {
  struct_lib : StructLib;
  identifiers : list PhaseId;
  structures : list ref
}.

(** *** Output containers *)

Record SimRecord : Type := {
  Sim : DiffractionSimulation.t;
  rec_intensities : list F;
  pixel_coords : list (Z * Z);
  pattern_norm : F
}.

Definition PhaseLibrary := Dict.dict Orientation SimRecord.

Record DiffractionLibrary : Type := {
  dl_items : Dict.dict PhaseId PhaseLibrary;
  dl_identifiers : list PhaseId;
  dl_structures : list ref
}.

Record VectorPair : Type := {
  hkl1 : Hkl; hkl2 : Hkl;
  len1 : F; len2 : F;
  angle : F
}.

Record DiffractionVectorLibrary : Type := {
  vl_items : Dict.dict PhaseId (list VectorPair);
  vl_identifiers : list PhaseId;
  vl_structures : list ref
}.

(** *** The world: the store of structures and the trace of simulator calls *)

Record Call : Type := {
  call_key : PhaseId;
  call_orientation : Orientation;
  call_structure : Structure.t
}.

Record world : Type := {
  store : ref -> Structure.t;
  calls : list Call
}.

Definition init_world (h : ref -> Structure.t) : world :=
  {| store := h; calls := [] |}.

(** *** Exceptions over a mutable world

    A raised exception abandons the value; what was written to the world
    before it stays written. *)

Definition M (A : Type) : Type := world -> (exn + A) * world.

Definition ret {A} (x : A) : M A := fun w => (inr x, w).

Definition raise {A} (e : exn) : M A := fun w => (inl e, w).

Definition bind {A B} (m : M A) (k : A -> M B) : M B :=
  fun w =>
    match m w with
    | (inl e, w') => (inl e, w')
    | (inr x, w') => k x w'
    end.

Fixpoint foldM {S A} (body : S -> A -> M S) (l : list A) (s : S) : M S :=
  match l with
  | [] => ret s
  | x :: xs => bind (body s x) (foldM body xs)
  end.
End Generators.

Notation "x <- m ;; k" := (bind m (fun x => k))
  (at level 61, m at next level, right associativity).
Notation "' pat <- m ;; k" := (bind m (fun x => match x with pat => k end))
  (at level 61, pat pattern, m at next level, right associativity).
Notation "m ;;; k" := (bind m (fun _ => k))
  (at level 61, right associativity).


(** ** The generators *)

Section Program.
Context {N : Numerics} {E : Externals}.

(** The simulator: a deterministic function of the structure it is handed,
    which either raises or returns a simulation. *)
Definition Calculator : Type :=
  Structure.t -> F -> bool -> exn + DiffractionSimulation.t.

Record DiffractionLibraryGenerator : Type := {
  electron_diffraction_calculator : Calculator
}.

Record VectorLibraryGenerator : Type := {
  vg_structures : StructureLibrary
}.

(** *** Primitive effects *)

(** [l[i]] on a sequence *)
Definition getitem {A} (l : list A) (i : nat) : M A :=
  match nth_error l i with
  | Some x => ret x
  | None => raise IndexError
  end.

(** [d[key]] on a dictionary *)
Definition dict_getitem {V} (d : Dict.dict PhaseId V) (key : PhaseId) : M V :=
  match Dict.get PhaseId_eq_dec key d with
  | Some v => ret v
  | None => raise KeyError
  end.

(** [obj.name] for an attribute that may be missing *)
Definition getattr {A} (name : string) (value : option A) : M A :=
  match value with
  | Some v => ret v
  | None => raise (AttributeError name)
  end.

(** Reading the object behind a reference. *)
Definition deref (structure : ref) : M Structure.t :=
  fun w => (inr (store w structure), w).

(** [structure.placeInLattice(new_lattice)]: in-place update of the object. *)
Definition placeInLattice (structure : ref) (new_lattice : Lattice.t) : M unit :=
  fun w =>
    (inr tt,
     {| store := fun r =>
          if Nat.eq_dec r structure
          then Structure.placeInLattice (store w structure) new_lattice
          else store w r;
        calls := calls w |}).


(** [diffractor.calculate_ed_data(structure, reciprocal_radius,
    with_direct_beam)]; the call is recorded in the trace before its outcome
    is known. *)
Definition calculate_ed_data (diffractor : Calculator)
    (key : PhaseId) (orientation : Orientation)
    (structure : ref) (reciprocal_radius : F) (with_direct_beam : bool)
  : M DiffractionSimulation.t :=
  fun w =>
    let s := store w structure in
    let w' := {| store := store w;
                 calls := calls w ++ [ {| call_key := key;
                                          call_orientation := orientation;
                                          call_structure := s |} ] |} in
    (diffractor s reciprocal_radius with_direct_beam, w').

(** *** Array expressions *)

(** [coords[:, :2]] *)
Definition first_two_columns (coords : list (F * F * list F)) : list (F * F) :=
  map (fun row => (fst (fst row), snd (fst row))) coords.

(** [rows + half_shape], broadcasting the pair over the rows *)
Definition add_broadcast (rows : list (F * F)) (half_shape : F * F) : list (F * F) :=
  map (fun row => (np_add (fst row) (fst half_shape),
                   np_add (snd row) (snd half_shape))) rows.

(** [np.rint(rows)] *)
Definition rint (rows : list (F * F)) : list (F * F) :=
  map (fun row => (np_rint (fst row), np_rint (snd row))) rows.

(** [rows.astype(int)] *)
Definition astype (rows : list (F * F)) : list (Z * Z) :=
  map (fun row => (astype_int (fst row), astype_int (snd row))) rows.

(** *** get_diffraction_library *)

(** The record stored for a retained simulation (lines 123-126). *)
Definition make_record (data : DiffractionSimulation.t) (half_shape : F * F)
  : SimRecord :=
  let pattern_intensities := DiffractionSimulation.intensities data in
  let pixel_coordinates :=
    astype (rint (add_broadcast
      (first_two_columns (calibrated_coordinates data)) half_shape)) in
  {| Sim := data;
     rec_intensities := pattern_intensities;
     pixel_coords := pixel_coordinates;
     pattern_norm := np_sqrt (np_dot pattern_intensities pattern_intensities) |}.

(** Body of the loop over the orientations of one phase (lines 100-127).
    The loop state is the pair of the phase's dictionary and the library.
    Lines 115-118 are taken on a simulation object on which they do not
    raise; [orientation_body_checked] below has them as the fallible steps
    they are. *)
Definition orientation_body (diffractor : Calculator)
    (key : PhaseId) (structure : ref)
    (a b c alpha beta gamma : F)
    (calibration reciprocal_radius : F) (half_shape : F * F)
    (with_direct_beam : bool)
    (st : PhaseLibrary * Dict.dict PhaseId PhaseLibrary)
    (orientation : Orientation)
  : M (PhaseLibrary * Dict.dict PhaseId PhaseLibrary) :=
  let phase_diffraction_library := fst st in
  let diffraction_library := snd st in
  let _orientation := map np_deg2rad orientation in
  o0 <- getitem _orientation 0 ;;
  o1 <- getitem _orientation 1 ;;
  o2 <- getitem _orientation 2 ;;
  let matrix := euler2mat o0 o1 o2 "rzxz" in
  let latt_rot := Lattice.Lattice a b c alpha beta gamma matrix in
  placeInLattice structure latt_rot ;;;
  data <- calculate_ed_data diffractor key orientation structure
            reciprocal_radius with_direct_beam ;;
  let data := DiffractionSimulation.set_calibration data calibration in
  let pattern_intensities := DiffractionSimulation.intensities data in
  if 0 <? length pattern_intensities then
    let phase_diffraction_library :=
      Dict.set Orientation_eq_dec orientation (make_record data half_shape)
        phase_diffraction_library in
    ret (phase_diffraction_library,
         Dict.set PhaseId_eq_dec key phase_diffraction_library
           diffraction_library)
  else
    ret (phase_diffraction_library, diffraction_library).

(** Body of the loop over the phases (lines 91-127). *)
Definition phase_body (diffractor : Calculator)
    (structure_library : Dict.dict PhaseId (ref * list Orientation))
    (calibration reciprocal_radius : F) (half_shape : F * F)
    (with_direct_beam : bool)
    (diffraction_library : Dict.dict PhaseId PhaseLibrary)
    (key : PhaseId)
  : M (Dict.dict PhaseId PhaseLibrary) :=
  let phase_diffraction_library : PhaseLibrary := [] in
  entry <- dict_getitem structure_library key ;;
  let structure := fst entry in
  s <- deref structure ;;
  let a := Lattice.a (Structure.lattice s) in
  let b := Lattice.b (Structure.lattice s) in
  let c := Lattice.c (Structure.lattice s) in
  let alpha := Lattice.alpha (Structure.lattice s) in
  let beta := Lattice.beta (Structure.lattice s) in
  let gamma := Lattice.gamma (Structure.lattice s) in
  let orientations := snd entry in
  st <- foldM (orientation_body diffractor key structure a b c alpha beta gamma
                 calibration reciprocal_radius half_shape with_direct_beam)
          orientations (phase_diffraction_library, diffraction_library) ;;
  ret (snd st).

Definition get_diffraction_library (self : DiffractionLibraryGenerator)
    (structure_library : StructureLibrary)
    (calibration reciprocal_radius : F) (half_shape : F * F)
    (with_direct_beam : bool)
  : M DiffractionLibrary :=
  let diffraction_library : Dict.dict PhaseId PhaseLibrary := [] in
  let diffractor := electron_diffraction_calculator self in
  (* the name is rebound to the inner mapping *)
  let structure_library := struct_lib structure_library in
  diffraction_library <-
    foldM (phase_body diffractor (sl_items structure_library)
             calibration reciprocal_radius half_shape with_direct_beam)
      (Dict.keys (sl_items structure_library)) diffraction_library ;;
  ids <- getattr "indentifiers" (sl_indentifiers structure_library) ;;
  structs <- getattr "structures" (sl_structures structure_library) ;;
  ret {| dl_items := diffraction_library;
         dl_identifiers := ids;
         dl_structures := structs |}.

(** *** get_diffraction_library with the exceptions of lines 115-118

    [orientation_body] takes the assignment of line 115 and the array
    expression of lines 117-118 on a simulation object on which they do not
    raise.  Both are executed for every orientation, before the test on the
    number of reflections, and either may raise.  The bodies below keep them
    as the fallible steps they are. *)

(** [data.calibration = value] (line 115) *)
Definition assign_calibration (checks : SimulationChecks)
    (data : DiffractionSimulation.t) (value : F) : M DiffractionSimulation.t :=
  match calibration_error checks data value with
  | Some e => raise e
  | None => ret (DiffractionSimulation.set_calibration data value)
  end.

(** [np.rint(data.calibrated_coordinates[:, :2] + half_shape).astype(int)]
    (lines 117-118) *)
Definition pixel_coordinates_of (checks : SimulationChecks)
    (data : DiffractionSimulation.t) (half_shape : F * F) : M (list (Z * Z)) :=
  match coordinates_error checks data half_shape with
  | Some e => raise e
  | None =>
      ret (astype (rint (add_broadcast
             (first_two_columns (calibrated_coordinates data)) half_shape)))
  end.

(** Body of the loop over the orientations of one phase (lines 100-127). *)
Definition orientation_body_checked (checks : SimulationChecks)
    (diffractor : Calculator)
    (key : PhaseId) (structure : ref)
    (a b c alpha beta gamma : F)
    (calibration reciprocal_radius : F) (half_shape : F * F)
    (with_direct_beam : bool)
    (st : PhaseLibrary * Dict.dict PhaseId PhaseLibrary)
    (orientation : Orientation)
  : M (PhaseLibrary * Dict.dict PhaseId PhaseLibrary) :=
  let phase_diffraction_library := fst st in
  let diffraction_library := snd st in
  let _orientation := map np_deg2rad orientation in
  o0 <- getitem _orientation 0 ;;
  o1 <- getitem _orientation 1 ;;
  o2 <- getitem _orientation 2 ;;
  let matrix := euler2mat o0 o1 o2 "rzxz" in
  let latt_rot := Lattice.Lattice a b c alpha beta gamma matrix in
  placeInLattice structure latt_rot ;;;
  data <- calculate_ed_data diffractor key orientation structure
            reciprocal_radius with_direct_beam ;;
  data <- assign_calibration checks data calibration ;;
  let pattern_intensities := DiffractionSimulation.intensities data in
  pixel_coordinates <- pixel_coordinates_of checks data half_shape ;;
  if 0 <? length pattern_intensities then
    let phase_diffraction_library :=
      Dict.set Orientation_eq_dec orientation
        {| Sim := data;
           rec_intensities := pattern_intensities;
           pixel_coords := pixel_coordinates;
           pattern_norm :=
             np_sqrt (np_dot pattern_intensities pattern_intensities) |}
        phase_diffraction_library in
    ret (phase_diffraction_library,
         Dict.set PhaseId_eq_dec key phase_diffraction_library
           diffraction_library)
  else
    ret (phase_diffraction_library, diffraction_library).

(** Body of the loop over the phases (lines 91-127). *)
Definition phase_body_checked (checks : SimulationChecks)
    (diffractor : Calculator)
    (structure_library : Dict.dict PhaseId (ref * list Orientation))
    (calibration reciprocal_radius : F) (half_shape : F * F)
    (with_direct_beam : bool)
    (diffraction_library : Dict.dict PhaseId PhaseLibrary)
    (key : PhaseId)
  : M (Dict.dict PhaseId PhaseLibrary) :=
  let phase_diffraction_library : PhaseLibrary := [] in
  entry <- dict_getitem structure_library key ;;
  let structure := fst entry in
  s <- deref structure ;;
  let a := Lattice.a (Structure.lattice s) in
  let b := Lattice.b (Structure.lattice s) in
  let c := Lattice.c (Structure.lattice s) in
  let alpha := Lattice.alpha (Structure.lattice s) in
  let beta := Lattice.beta (Structure.lattice s) in
  let gamma := Lattice.gamma (Structure.lattice s) in
  let orientations := snd entry in
  st <- foldM (orientation_body_checked checks diffractor key structure
                 a b c alpha beta gamma
                 calibration reciprocal_radius half_shape with_direct_beam)
          orientations (phase_diffraction_library, diffraction_library) ;;
  ret (snd st).

Definition get_diffraction_library_checked (checks : SimulationChecks)
    (self : DiffractionLibraryGenerator)
    (structure_library : StructureLibrary)
    (calibration reciprocal_radius : F) (half_shape : F * F)
    (with_direct_beam : bool)
  : M DiffractionLibrary :=
  let diffraction_library : Dict.dict PhaseId PhaseLibrary := [] in
  let diffractor := electron_diffraction_calculator self in
  (* the name is rebound to the inner mapping *)
  let structure_library := struct_lib structure_library in
  diffraction_library <-
    foldM (phase_body_checked checks diffractor (sl_items structure_library)
             calibration reciprocal_radius half_shape with_direct_beam)
      (Dict.keys (sl_items structure_library)) diffraction_library ;;
  ids <- getattr "indentifiers" (sl_indentifiers structure_library) ;;
  structs <- getattr "structures" (sl_structures structure_library) ;;
  ret {| dl_items := diffraction_library;
         dl_identifiers := ids;
         dl_structures := structs |}.

(** *** get_vector_library *)

(** [itertools.combinations(l, r)]: the r-length subsequences of [l], in
    lexicographic order of positions. *)
Fixpoint combinations {A} (l : list A) (r : nat) : list (list A) :=
  match r with
  | 0 => [[]]
  | S r' =>
      match l with
      | [] => []
      | x :: xs => map (cons x) (combinations xs r') ++ combinations xs r
      end
  end.

(** [np.arange(n)] *)
Definition arange (n : nat) : list nat := seq 0 n.

(** Body of the loop over index pairs (lines 187-196). *)
Definition pair_body (indices : list Hkl) (coordinates : list Vec3)
    (distances : list F)
    (phase_vectors : list VectorPair) (comb : list nat)
  : M (list VectorPair) :=
  i <- getitem comb 0 ;;
  j <- getitem comb 1 ;;
  hkl1 <- getitem indices i ;;
  hkl2 <- getitem indices j ;;
  len1 <- getitem distances i ;;
  len2 <- getitem distances j ;;
  ci <- getitem coordinates i ;;
  cj <- getitem coordinates j ;;
  let angle := get_angle_cartesian ci cj in
  ret (phase_vectors ++
       [ {| hkl1 := hkl1; hkl2 := hkl2; len1 := len1; len2 := len2;
            angle := angle |} ]).

(** Body of the loop over the phases (lines 175-197). *)
Definition vector_phase_body
    (structure_library : Dict.dict PhaseId (ref * list Orientation))
    (reciprocal_radius : F)
    (vector_library : Dict.dict PhaseId (list VectorPair))
    (key : PhaseId)
  : M (Dict.dict PhaseId (list VectorPair)) :=
  entry <- dict_getitem structure_library key ;;
  structure <- deref (fst entry) ;;
  let latt := Structure.lattice structure in
  let recip_latt := reciprocal latt in
  let points := get_points_in_sphere recip_latt reciprocal_radius in
  let indices := fst (fst points) in
  let coordinates := snd (fst points) in
  let distances := snd points in
  phase_vectors <-
    foldM (pair_body indices coordinates distances)
      (combinations (arange (length indices)) 2) [] ;;
  ret (Dict.set PhaseId_eq_dec key phase_vectors vector_library).

Definition get_vector_library (self : VectorLibraryGenerator)
    (reciprocal_radius : F)
  : M DiffractionVectorLibrary :=
  let vector_library : Dict.dict PhaseId (list VectorPair) := [] in
  let structure_library := struct_lib (vg_structures self) in
  vector_library <-
    foldM (vector_phase_body (sl_items structure_library) reciprocal_radius)
      (Dict.keys (sl_items structure_library)) vector_library ;;
  ids <- getattr "indentifiers" (sl_indentifiers structure_library) ;;
  structs <- getattr "structures" (sl_structures structure_library) ;;
  ret {| vl_items := vector_library;
         vl_identifiers := ids;
         vl_structures := structs |}.

(** *** Reading the trace

    The definitions below do not belong to the program: they describe a run
    through the trace of simulator calls it leaves behind. *)

(** The six cell parameters of a lattice. *)
Definition cell (L : Lattice.t) : F * F * F * F * F * F :=
  (Lattice.a L, Lattice.b L, Lattice.c L,
   Lattice.alpha L, Lattice.beta L, Lattice.gamma L).

(** The rotation matrix built for an orientation (lines 100-103). *)
Definition rotation_of (orientation : Orientation) : option Matrix :=
  match map np_deg2rad orientation with
  | o0 :: o1 :: o2 :: _ => Some (euler2mat o0 o1 o2 "rzxz")
  | _ => None
  end.

(** What the simulator answered to a recorded call. *)
Definition simulate (diffractor : Calculator) (reciprocal_radius : F)
    (with_direct_beam : bool) (call : Call) : exn + DiffractionSimulation.t :=
  diffractor (call_structure call) reciprocal_radius with_direct_beam.

(** The simulation of a call that produced at least one reflection. *)
Definition retained (diffractor : Calculator) (reciprocal_radius : F)
    (with_direct_beam : bool) (call : Call) : option DiffractionSimulation.t :=
  match simulate diffractor reciprocal_radius with_direct_beam call with
  | inr data =>
      if 0 <? length (DiffractionSimulation.intensities data)
      then Some data else None
  | inl _ => None
  end.

(** The effect of one recorded call on the library. *)
Definition replay_call (diffractor : Calculator)
    (calibration reciprocal_radius : F) (half_shape : F * F)
    (with_direct_beam : bool)
    (library : Dict.dict PhaseId PhaseLibrary) (call : Call)
  : Dict.dict PhaseId PhaseLibrary :=
  match retained diffractor reciprocal_radius with_direct_beam call with
  | Some data =>
      let phase :=
        match Dict.get PhaseId_eq_dec (call_key call) library with
        | Some phase => phase
        | None => []
        end in
      Dict.set PhaseId_eq_dec (call_key call)
        (Dict.set Orientation_eq_dec (call_orientation call)
           (make_record
              (DiffractionSimulation.set_calibration data calibration)
              half_shape)
           phase)
        library
  | None => library
  end.

Definition replay (diffractor : Calculator)
    (calibration reciprocal_radius : F) (half_shape : F * F)
    (with_direct_beam : bool) (trace : list Call)
  : Dict.dict PhaseId PhaseLibrary :=
  fold_left (replay_call diffractor calibration reciprocal_radius half_shape
               with_direct_beam) trace [].

(** The (phase, orientation) pairs of a structure library, in the order in
    which the generator visits them. *)
Definition planned (items : Dict.dict PhaseId (ref * list Orientation))
    (keys : list PhaseId) : list (PhaseId * Orientation) :=
  flat_map (fun key =>
              match Dict.get PhaseId_eq_dec key items with
              | Some entry => map (pair key) (snd entry)
              | None => []
              end) keys.

Definition signature (call : Call) : PhaseId * Orientation :=
  (call_key call, call_orientation call).

(** The store after overwriting one object. *)
Definition update (h : ref -> Structure.t) (r : ref) (s : Structure.t)
  : ref -> Structure.t :=
  fun r' => if Nat.eq_dec r' r then s else h r'.

(** The world after the lattice of [structure] was replaced and the
    simulator was called on it. *)
Definition after_call (key : PhaseId) (structure : ref) (L : Lattice.t)
    (orientation : Orientation) (w : world) : world :=
  let s := Structure.placeInLattice (store w structure) L in
  {| store := update (store w) structure s;
     calls := calls w ++ [ {| call_key := key;
                              call_orientation := orientation;
                              call_structure := s |} ] |}.

(** A recorded call to which the simulator answered with a simulation. *)
Definition succeeded (diffractor : Calculator) (reciprocal_radius : F)
    (with_direct_beam : bool) (call : Call) : Prop :=
  exists data,
    simulate diffractor reciprocal_radius with_direct_beam call = inr data.

(** A trace and the result that came with it: either every call succeeded,
    or the last call raised and the result is that very exception. *)
Definition trace_outcome (diffractor : Calculator) (reciprocal_radius : F)
    (with_direct_beam : bool) {A} (trace : list Call) (res : exn + A) : Prop :=
  Forall (succeeded diffractor reciprocal_radius with_direct_beam) trace \/
  exists pre call e,
    trace = pre ++ [call] /\
    Forall (succeeded diffractor reciprocal_radius with_direct_beam) pre /\
    simulate diffractor reciprocal_radius with_direct_beam call = inl e /\
    res = inl e.

(** A call made for phase [key] while its structure had the cell parameters
    [a .. gamma]: its orientation is one of [orientations] and the structure
    it was handed sits in the lattice rotated for that orientation. *)
Definition call_from (key : PhaseId) (a b c alpha beta gamma : F)
    (orientations : list Orientation) (call : Call) : Prop :=
  call_key call = key /\
  In (call_orientation call) orientations /\
  exists matrix,
    rotation_of (call_orientation call) = Some matrix /\
    Structure.lattice (call_structure call) =
      Lattice.Lattice a b c alpha beta gamma matrix.

(** The loop state inside phase [key]: the library holds the phase's
    dictionary as soon as that dictionary is not empty. *)
Definition phase_inv (key : PhaseId)
    (st : PhaseLibrary * Dict.dict PhaseId PhaseLibrary) : Prop :=
  Dict.get PhaseId_eq_dec key (snd st) = Some (fst st) \/
  (fst st = [] /\ Dict.get PhaseId_eq_dec key (snd st) = None).

(** The lattice with the cell of [L] and the base rotation [matrix]
    (lines 105-107). *)
Definition rotated_lattice (L : Lattice.t) (matrix : Matrix) : Lattice.t :=
  Lattice.Lattice (Lattice.a L) (Lattice.b L) (Lattice.c L)
    (Lattice.alpha L) (Lattice.beta L) (Lattice.gamma L) matrix.

(** A call made for a phase of the library [items] from the store [h]. *)
Definition call_of_library (items : Dict.dict PhaseId (ref * list Orientation))
    (keys : list PhaseId) (h : ref -> Structure.t) (call : Call) : Prop :=
  In (call_key call) keys /\
  exists l orientations matrix,
    Dict.get PhaseId_eq_dec (call_key call) items = Some (l, orientations) /\
    In (call_orientation call) orientations /\
    rotation_of (call_orientation call) = Some matrix /\
    Structure.lattice (call_structure call) =
      rotated_lattice (Structure.lattice (h l)) matrix.

(** The lattice in which the object [r] is left by the phase [key], when it
    was in [L] before: the phase's structure ends in the lattice rotated for
    the last orientation of a non-empty list, every other object is left
    alone. *)
Definition phase_lattice (items : Dict.dict PhaseId (ref * list Orientation))
    (r : ref) (L : Lattice.t) (key : PhaseId) : Lattice.t :=
  match Dict.get PhaseId_eq_dec key items with
  | Some entry =>
      if Nat.eq_dec (fst entry) r then
        match rev (snd entry) with
        | orientation :: _ =>
            match rotation_of orientation with
            | Some matrix => rotated_lattice L matrix
            | None => L
            end
        | [] => L
        end
      else L
  | None => L
  end.

(** The lattice in which the object [r] is left by the phases [keys]. *)
Definition final_lattice (items : Dict.dict PhaseId (ref * list Orientation))
    (keys : list PhaseId) (r : ref) (L : Lattice.t) : Lattice.t :=
  fold_left (phase_lattice items r) keys L.

(** The reading of the frame condition under which every phase finds, after
    the call, its own last orientation in the lattice of its structure. *)
Definition holds_own_last_lattice (self : DiffractionLibraryGenerator)
    (structure_library : StructureLibrary)
    (calibration reciprocal_radius : F) (half_shape : F * F)
    (with_direct_beam : bool) (h : ref -> Structure.t) : Prop :=
  forall lib w',
    get_diffraction_library self structure_library calibration
      reciprocal_radius half_shape with_direct_beam (init_world h)
    = (inr lib, w') ->
    forall key entry,
      Dict.get PhaseId_eq_dec key (sl_items (struct_lib structure_library))
      = Some entry ->
      snd entry <> [] ->
      exists matrix,
        rotation_of (last (snd entry) []) = Some matrix /\
        Structure.lattice (store w' (fst entry)) =
          rotated_lattice (Structure.lattice (h (fst entry))) matrix.

(** The reading of idempotence: a second call with the same arguments, made
    on the structures as the first call left them, returns the library of
    the first. *)
Definition second_call_same (self : DiffractionLibraryGenerator)
    (structure_library : StructureLibrary)
    (calibration reciprocal_radius : F) (half_shape : F * F)
    (with_direct_beam : bool) (h : ref -> Structure.t) : Prop :=
  forall lib w1,
    get_diffraction_library self structure_library calibration
      reciprocal_radius half_shape with_direct_beam (init_world h)
    = (inr lib, w1) ->
    exists w2,
      get_diffraction_library self structure_library calibration
        reciprocal_radius half_shape with_direct_beam w1
      = (inr lib, w2).

(** Two states of a structure object that the generator cannot tell apart:
    the same cell parameters, and the same structure once placed in any
    lattice. *)
Definition agree (s1 s2 : Structure.t) : Prop :=
  cell (Structure.lattice s1) = cell (Structure.lattice s2) /\
  forall L, Structure.placeInLattice s1 L = Structure.placeInLattice s2 L.

Definition stores_agree (h1 h2 : ref -> Structure.t) : Prop :=
  forall r, agree (h1 r) (h2 r).

(** *** Reading the vector library *)

(** The pairs of positions [(i, j)] of a list taken in order: every element
    paired with each of the later ones. *)
Fixpoint all_pairs {A} (l : list A) : list (A * A) :=
  match l with
  | [] => []
  | x :: xs => map (pair x) xs ++ all_pairs xs
  end.

(** The tuple that [itertools.combinations] yields for a pair. *)
Definition comb_of {A} (p : A * A) : list A := [fst p; snd p].

(** Lexicographic order on index pairs. *)
Definition lex_lt (p q : nat * nat) : Prop :=
  fst p < fst q \/ (fst p = fst q /\ snd p < snd q).

(** The record [(hkl_i, hkl_j, dist_i, dist_j, angle(coord_i, coord_j))] of
    the index pair [p]. *)
Definition record_of_pair (indices : list Hkl) (coordinates : list Vec3)
    (distances : list F) (p : nat * nat) (record : VectorPair) : Prop :=
  nth_error indices (fst p) = Some (hkl1 record) /\
  nth_error indices (snd p) = Some (hkl2 record) /\
  nth_error distances (fst p) = Some (len1 record) /\
  nth_error distances (snd p) = Some (len2 record) /\
  exists ci cj,
    nth_error coordinates (fst p) = Some ci /\
    nth_error coordinates (snd p) = Some cj /\
    angle record = get_angle_cartesian ci cj.

(** The records of a phase whose points in the sphere are given: one per
    index pair, in the order of the pairs. *)
Definition records_of_points (points : list Hkl * list Vec3 * list F)
    (records : list VectorPair) : Prop :=
  Forall2 (record_of_pair (fst (fst points)) (snd (fst points)) (snd points))
    (all_pairs (arange (length (fst (fst points))))) records.

(** The points in the sphere of the phase entry [entry] in the store [h]. *)
Definition points_of (h : ref -> Structure.t) (reciprocal_radius : F)
    (entry : ref * list Orientation) : list Hkl * list Vec3 * list F :=
  get_points_in_sphere (reciprocal (Structure.lattice (h (fst entry))))
    reciprocal_radius.

(** *** Reading the order of the keys *)

(** A key list after one more assignment: a new key goes to the end, a key
    that is present keeps its place. *)
Definition add_key {K} (K_eq_dec : forall x y : K, {x = y} + {x <> y})
    (l : list K) (k : K) : list K :=
  if in_dec K_eq_dec k l then l else l ++ [k].

(** The elements of a list in the order of their first occurrence. *)
Definition first_occurrences {K} (K_eq_dec : forall x y : K, {x = y} + {x <> y})
    (l : list K) : list K :=
  fold_left (add_key K_eq_dec) l [].

(** The recorded calls whose simulation was stored. *)
Definition kept (diffractor : Calculator) (reciprocal_radius : F)
    (with_direct_beam : bool) (call : Call) : bool :=
  match retained diffractor reciprocal_radius with_direct_beam call with
  | Some _ => true
  | None => false
  end.

(** The recorded calls of phase [key] whose simulation was stored. *)
Definition kept_for (diffractor : Calculator) (reciprocal_radius : F)
    (with_direct_beam : bool) (key : PhaseId) (call : Call) : bool :=
  kept diffractor reciprocal_radius with_direct_beam call &&
  (if PhaseId_eq_dec (call_key call) key then true else false).

(** *** Reading the exceptions of lines 115-118 *)

(** The exception that lines 115-118 raise on a simulation, if any: that of
    the assignment, or else that of the array expression on the simulation
    with its calibration set. *)
Definition raised_after (checks : SimulationChecks)
    (calibration : F) (half_shape : F * F) (data : DiffractionSimulation.t)
  : option exn :=
  match calibration_error checks data calibration with
  | Some e => Some e
  | None =>
      coordinates_error checks
        (DiffractionSimulation.set_calibration data calibration) half_shape
  end.

(** A recorded call on whose simulation lines 115-118 raise nothing. *)
Definition passes_checks (checks : SimulationChecks) (diffractor : Calculator)
    (calibration reciprocal_radius : F) (half_shape : F * F)
    (with_direct_beam : bool) (call : Call) : Prop :=
  forall data,
    simulate diffractor reciprocal_radius with_direct_beam call = inr data ->
    raised_after checks calibration half_shape data = None.

(** A calculator that raises by itself what lines 115-118 raise on its
    simulation.  It is no part of the program: the run of
    [get_diffraction_library_checked] is read as a run of
    [get_diffraction_library] with this calculator. *)
Definition checked_calculator (checks : SimulationChecks)
    (diffractor : Calculator) (calibration : F) (half_shape : F * F)
  : Calculator :=
  fun s reciprocal_radius with_direct_beam =>
    match diffractor s reciprocal_radius with_direct_beam with
    | inl e => inl e
    | inr data =>
        match raised_after checks calibration half_shape data with
        | Some e => inl e
        | None => inr data
        end
    end.

End Program.

(** ** A concrete world

    Integers stand for floats, a "matrix" is a single integer and moving the
    atoms between lattices keeps [xyz + baserot] fixed.  The simulator
    returns no reflection for an unrotated lattice and raises for the
    rotation 99. *)

Module Demo.
Local Open Scope Z_scope.

#[export] Instance numerics : Numerics := {|
  F := Z;
  F_eq_dec := Z.eq_dec;
  PhaseId := nat;
  PhaseId_eq_dec := Nat.eq_dec;
  Matrix := Z;
  Atoms := Z;
  Raw := Z;
  Hkl := Z * Z * Z;
  Vec3 := Z * Z * Z;
  np_deg2rad := fun x => x;
  np_add := Z.add;
  np_rint := fun x => x;
  astype_int := fun x => x;
  np_sqrt := Z.sqrt;
  np_dot := fun u v => fold_right Z.add 0%Z
                         (map (fun p => (fst p * snd p)%Z) (combine u v));
  euler2mat := fun x y z _ => (x + 2 * y + 3 * z)%Z
|}.

Definition points (n : nat) : list Z := map Z.of_nat (seq 1%nat n).

#[export] Instance externals : Externals := {|
  move_atoms := fun old new xyz =>
    (xyz + Lattice.baserot old - Lattice.baserot new)%Z;
  reciprocal := fun L => L;
  get_points_in_sphere := fun L radius =>
    let n := Z.to_nat radius in
    (map (fun i => (i, 0, 0)%Z) (points n),
     map (fun i => (i * Lattice.a L, 0, 0)%Z) (points n),
     map (fun i => (i * Lattice.a L)%Z) (points n));
  get_angle_cartesian := fun u v => (fst (fst u) * fst (fst v))%Z;
  calibrated_coordinates := fun data =>
    map (fun i => ((i * DiffractionSimulation.calibration data)%Z,
                   (i + 1)%Z, [i]))
        (DiffractionSimulation.intensities data)
|}.

Definition diffractor : Calculator :=
  fun s radius with_direct_beam =>
    let m := Lattice.baserot (Structure.lattice s) in
    if (m =? 99)%Z then inl (SimulationFailure 7%nat)
    else inr {| DiffractionSimulation.raw := Structure.atoms s;
                DiffractionSimulation.calibration := 1%Z;
                DiffractionSimulation.intensities :=
                  if (m =? 0)%Z then []
                  else if with_direct_beam then [m; radius] else [m] |}.

Definition generator : DiffractionLibraryGenerator :=
  {| electron_diffraction_calculator := diffractor |}.

Definition cubic : Lattice.t := Lattice.Lattice 4 4 4 90 90 90 0.

Definition heap : ref -> Structure.t :=
  fun r => {| Structure.lattice := cubic; Structure.atoms := Z.of_nat r |}.

(** Two phases with their own structures; the orientation (0,0,0) occurs
    twice in phase 1 and yields no reflection, phase 3 yields none at all. *)
Definition library : StructureLibrary :=
  {| struct_lib :=
       {| sl_items := [ (1%nat, (0%nat, [ [10; 0; 0]; [0; 0; 0]; [10; 0; 0]; [0; 1; 0] ]));
                        (2%nat, (1%nat, [ [0; 0; 1] ]));
                        (3%nat, (2%nat, [ [0; 0; 0] ])) ];
          sl_indentifiers := Some [1%nat; 2%nat; 3%nat];
          sl_structures := Some [0%nat; 1%nat; 2%nat] |};
     identifiers := [1%nat; 2%nat; 3%nat];
     structures := [0%nat; 1%nat; 2%nat] |}.

(** Two phases sharing the structure object 0. *)
Definition shared_library : StructureLibrary :=
  {| struct_lib :=
       {| sl_items := [ (1%nat, (0%nat, [ [10; 0; 0] ]));
                        (2%nat, (0%nat, [ [20; 0; 0] ])) ];
          sl_indentifiers := Some [1%nat; 2%nat];
          sl_structures := Some [0%nat; 0%nat] |};
     identifiers := [1%nat; 2%nat];
     structures := [0%nat; 0%nat] |}.

(** A library whose mapping is a plain dictionary, without attributes. *)
Definition plain_library : StructureLibrary :=
  {| struct_lib :=
       {| sl_items := [ (1%nat, (0%nat, [ [10; 0; 0] ])) ];
          sl_indentifiers := None;
          sl_structures := None |};
     identifiers := [1%nat];
     structures := [0%nat] |}.

(** A library whose mapping carries attributes of its own. *)
Definition relabelled_library : StructureLibrary :=
  {| struct_lib :=
       {| sl_items := [ (1%nat, (0%nat, [ [10; 0; 0] ])) ];
          sl_indentifiers := Some [7%nat];
          sl_structures := Some [5%nat] |};
     identifiers := [1%nat];
     structures := [0%nat] |}.

(** The structures of [heap] seen in another lattice: rotated by 5, with the
    atoms re-expressed accordingly. *)
Definition turned_heap : ref -> Structure.t :=
  fun r => {| Structure.lattice := Lattice.Lattice 4 4 4 90 90 90 5;
              Structure.atoms := Z.of_nat r - 5 |}.

(** The example library with other orientation lists. *)
Definition reoriented_library : StructureLibrary :=
  {| struct_lib :=
       {| sl_items := [ (1%nat, (0%nat, [ [7; 7; 7] ]));
                        (2%nat, (1%nat, []));
                        (3%nat, (2%nat, [ [1; 2; 3]; [4; 5; 6] ])) ];
          sl_indentifiers := Some [1%nat; 2%nat; 3%nat];
          sl_structures := Some [0%nat; 1%nat; 2%nat] |};
     identifiers := [1%nat; 2%nat; 3%nat];
     structures := [0%nat; 1%nat; 2%nat] |}.

Definition reoriented_generator : VectorLibraryGenerator :=
  {| vg_structures := reoriented_library |}.

(** A library whose second phase makes the simulator raise. *)
Definition failing_library : StructureLibrary :=
  {| struct_lib :=
       {| sl_items := [ (1%nat, (0%nat, [ [10; 0; 0] ]));
                        (2%nat, (1%nat, [ [5; 0; 0]; [99; 0; 0]; [6; 0; 0] ])) ];
          sl_indentifiers := Some [1%nat; 2%nat];
          sl_structures := Some [0%nat; 1%nat] |};
     identifiers := [1%nat; 2%nat];
     structures := [0%nat; 1%nat] |}.

(** A simulation object whose setter rejects the calibration 0. *)
Definition checks : SimulationChecks :=
  {| calibration_error := fun _ value =>
       if (value =? 0)%Z then Some ValueError else None;
     coordinates_error := fun _ _ => None |}.

(** The calls used in the examples. *)
Abbreviation run_library :=
  (get_diffraction_library (N := numerics) (E := externals) generator library
     2%Z 3%Z (72%Z, 72%Z) true (init_world heap)).

Abbreviation run_shared :=
  (get_diffraction_library (N := numerics) (E := externals) generator
     shared_library 2%Z 3%Z (72%Z, 72%Z) true (init_world heap)).

Abbreviation run_failing :=
  (get_diffraction_library (N := numerics) (E := externals) generator
     failing_library 2%Z 3%Z (72%Z, 72%Z) true (init_world heap)).

Abbreviation run_checked :=
  (get_diffraction_library_checked (N := numerics) (E := externals) checks
     generator library 2%Z 3%Z (72%Z, 72%Z) true (init_world heap)).

Abbreviation run_uncalibrated :=
  (get_diffraction_library_checked (N := numerics) (E := externals) checks
     generator library 0%Z 3%Z (72%Z, 72%Z) true (init_world heap)).

Definition vector_generator : VectorLibraryGenerator :=
  {| vg_structures := library |}.

Abbreviation run_vectors :=
  (get_vector_library (N := numerics) (E := externals) vector_generator 3%Z
     (init_world heap)).

Definition no_library : DiffractionLibrary :=
  {| dl_items := []; dl_identifiers := []; dl_structures := [] |}.

Definition no_vectors : DiffractionVectorLibrary :=
  {| vl_items := []; vl_identifiers := []; vl_structures := [] |}.

(** The libraries these calls return. *)
Definition returned_library : DiffractionLibrary :=
  match fst run_library with inr lib => lib | inl _ => no_library end.

Definition returned_shared : DiffractionLibrary :=
  match fst run_shared with inr lib => lib | inl _ => no_library end.

Definition returned_vectors : DiffractionVectorLibrary :=
  match fst run_vectors with inr lib => lib | inl _ => no_vectors end.

(** The simulator calls of the failing run: two that succeed and the one
    that raises. *)
Definition calls_before_failure : list Call :=
  [ {| call_key := 1%nat; call_orientation := [10; 0; 0];
       call_structure :=
         {| Structure.lattice := Lattice.Lattice 4 4 4 90 90 90 10;
            Structure.atoms := -10 |} |};
    {| call_key := 2%nat; call_orientation := [5; 0; 0];
       call_structure :=
         {| Structure.lattice := Lattice.Lattice 4 4 4 90 90 90 5;
            Structure.atoms := -4 |} |} ].

Definition failing_call : Call :=
  {| call_key := 2%nat; call_orientation := [99; 0; 0];
     call_structure :=
       {| Structure.lattice := Lattice.Lattice 4 4 4 90 90 90 99;
          Structure.atoms := -98 |} |}.

(** The entry of phase 1 in the example library. *)
Definition entry_one : ref * list Orientation :=
  (0%nat, [ [10; 0; 0]; [0; 0; 0]; [10; 0; 0]; [0; 1; 0] ]).

Definition no_record : SimRecord :=
  {| Sim := {| DiffractionSimulation.raw := 0;
               DiffractionSimulation.calibration := 0;
               DiffractionSimulation.intensities := [] |};
     rec_intensities := []; pixel_coords := []; pattern_norm := 0 |}.

(** The dictionary of phase 1 in the returned library and its record for the
    orientation (10, 0, 0). *)
Definition phase_one : PhaseLibrary :=
  match Dict.get PhaseId_eq_dec 1%nat (dl_items returned_library) with
  | Some phase => phase
  | None => []
  end.

Definition record_one : SimRecord :=
  match Dict.get Orientation_eq_dec [10; 0; 0] phase_one with
  | Some record => record
  | None => no_record
  end.

End Demo.

(** ** A placement that rounds

    Arithmetic on floating-point numbers re-expresses the atoms of a
    structure in a new lattice only up to rounding.  In this world the
    coordinates are integers, the base of a lattice is a scale and a
    placement divides with truncation, so that placing a structure in a
    lattice and then in another one is not placing it in the latter at once.
    The simulator reports the coordinate it is handed as its only
    reflection. *)

Module Drift.
Local Open Scope Z_scope.
#[local] Existing Instance Demo.numerics.

Definition externals : Externals := {|
  move_atoms := fun old new xyz =>
    (xyz * Lattice.baserot old / Lattice.baserot new)%Z;
  reciprocal := fun L => L;
  get_points_in_sphere := fun L radius => ([], [], []);
  get_angle_cartesian := fun u v => 0%Z;
  calibrated_coordinates := fun data =>
    map (fun i => ((i * DiffractionSimulation.calibration data)%Z,
                   (i + 1)%Z, [i]))
        (DiffractionSimulation.intensities data)
|}.

Definition diffractor : Calculator :=
  fun s radius with_direct_beam =>
    inr {| DiffractionSimulation.raw := Structure.atoms s;
           DiffractionSimulation.calibration := 1%Z;
           DiffractionSimulation.intensities := [Structure.atoms s] |}.

Definition generator : DiffractionLibraryGenerator :=
  {| electron_diffraction_calculator := diffractor |}.

Definition heap : ref -> Structure.t (N := Demo.numerics) :=
  fun r => {| Structure.lattice := Lattice.Lattice 4 4 4 90 90 90 1;
              Structure.atoms := 5 |}.

(** The entry of the only phase: the orientation (2, 0, 0) occurs twice. *)
Definition entry_one : ref * list (Orientation (N := Demo.numerics)) :=
  (0%nat, [ [2; 0; 0]; [3; 0; 0]; [2; 0; 0] ]).

Definition library : StructureLibrary (N := Demo.numerics) :=
  {| struct_lib :=
       {| sl_items := [ (1%nat, entry_one) ];
          sl_indentifiers := Some [1%nat];
          sl_structures := Some [0%nat] |};
     identifiers := [1%nat];
     structures := [0%nat] |}.

Abbreviation run_library :=
  (get_diffraction_library (N := Demo.numerics) (E := externals) generator
     library 2%Z 3%Z (72%Z, 72%Z) true (init_world heap)).

Definition returned_library : DiffractionLibrary (N := Demo.numerics) :=
  match fst run_library with inr lib => lib | inl _ => Demo.no_library end.

End Drift.

(** ** Dictionaries *)

Section DictFacts.
Variables K V : Type.
Variable K_eq_dec : forall x y : K, {x = y} + {x <> y}.
Implicit Types (d : Dict.dict K V) (k : K) (v : V).

Lemma get_set_same d k v : Dict.get K_eq_dec k (Dict.set K_eq_dec k v d) = Some v.
Proof.
  induction d as [|[k' v'] d IH]; simpl.
  - destruct (K_eq_dec k k); congruence.
  - destruct (K_eq_dec k k') as [->|Hne]; simpl.
    + destruct (K_eq_dec k' k'); congruence.
    + destruct (K_eq_dec k k'); congruence.
Qed.

Lemma get_set_other d k k' v :
  k' <> k -> Dict.get K_eq_dec k' (Dict.set K_eq_dec k v d) = Dict.get K_eq_dec k' d.
Proof.
  intros Hne. induction d as [|[k0 v0] d IH]; simpl.
  - destruct (K_eq_dec k' k); congruence.
  - destruct (K_eq_dec k k0) as [->|Hk]; simpl.
    + destruct (K_eq_dec k' k0); congruence.
    + destruct (K_eq_dec k' k0); congruence.
Qed.

Lemma keys_set d k v k' :
  In k' (Dict.keys (Dict.set K_eq_dec k v d)) <-> k' = k \/ In k' (Dict.keys d).
Proof.
  induction d as [|[k0 v0] d IH]; simpl.
  - intuition.
  - destruct (K_eq_dec k k0) as [->|Hk]; simpl.
    + intuition.
    + unfold Dict.keys in IH. rewrite IH. intuition.
Qed.

Lemma NoDup_keys_set d k v :
  NoDup (Dict.keys d) -> NoDup (Dict.keys (Dict.set K_eq_dec k v d)).
Proof.
  induction d as [|[k0 v0] d IH]; simpl; intros Hnd.
  - constructor; [intros [] | constructor].
  - inversion Hnd as [|? ? Hnotin Hnd']; subst.
    destruct (K_eq_dec k k0) as [->|Hk]; simpl.
    + constructor; assumption.
    + constructor; [|apply IH; assumption].
      intros Hin. apply keys_set in Hin. destruct Hin as [->|Hin]; auto.
Qed.

Lemma get_in_keys d k : In k (Dict.keys d) <-> exists v, Dict.get K_eq_dec k d = Some v.
Proof.
  induction d as [|[k0 v0] d IH]; simpl.
  - split; [intros [] | intros [v Hv]; discriminate].
  - destruct (K_eq_dec k k0) as [->|Hk].
    + split; eauto.
    + unfold Dict.keys in IH. rewrite <- IH. intuition congruence.
Qed.

Lemma get_none_not_in d k : Dict.get K_eq_dec k d = None <-> ~ In k (Dict.keys d).
Proof.
  rewrite get_in_keys. split.
  - intros Hn [v Hv]. congruence.
  - intros Hn. destruct (Dict.get K_eq_dec k d) eqn:Hg; [|reflexivity].
    exfalso. eauto.
Qed.

Lemma set_nonempty d k v : Dict.set K_eq_dec k v d <> [].
Proof.
  destruct d as [|[k0 v0] d]; simpl; [discriminate|].
  destruct (K_eq_dec k k0); discriminate.
Qed.

End DictFacts.

(** ** One iteration of the orientation loop *)

Section Runs.
Context {N : Numerics} {E : Externals}.
Variable diffractor : Calculator.
Variables calibration reciprocal_radius : F.
Variable half_shape : F * F.
Variable with_direct_beam : bool.

Local Abbreviation simulate := (simulate diffractor reciprocal_radius with_direct_beam).
Local Abbreviation retained := (retained diffractor reciprocal_radius with_direct_beam).
Local Abbreviation replay_call :=
  (replay_call diffractor calibration reciprocal_radius half_shape with_direct_beam).
Local Abbreviation replay :=
  (replay diffractor calibration reciprocal_radius half_shape with_direct_beam).
Local Abbreviation succeeded := (succeeded diffractor reciprocal_radius with_direct_beam).
Local Abbreviation trace_outcome :=
  (trace_outcome diffractor reciprocal_radius with_direct_beam).

Lemma orientation_body_run key structure a b c alpha beta gamma st o w :
  orientation_body diffractor key structure a b c alpha beta gamma
    calibration reciprocal_radius half_shape with_direct_beam st o w =
  match rotation_of o with
  | None => (inl IndexError, w)
  | Some matrix =>
      let L := Lattice.Lattice a b c alpha beta gamma matrix in
      let s := Structure.placeInLattice (store w structure) L in
      let w1 := after_call key structure L o w in
      match diffractor s reciprocal_radius with_direct_beam with
      | inl e => (inl e, w1)
      | inr data =>
          (inr (if 0 <? length (DiffractionSimulation.intensities data)
                then
                  let phase :=
                    Dict.set Orientation_eq_dec o
                      (make_record
                         (DiffractionSimulation.set_calibration data calibration)
                         half_shape) (fst st) in
                  (phase, Dict.set PhaseId_eq_dec key phase (snd st))
                else st), w1)
      end
  end.
Proof.
  unfold orientation_body, rotation_of.
  destruct (map np_deg2rad o) as [|o0 [|o1 [|o2 rest]]]; try reflexivity.
  cbn -[Nat.ltb]. unfold bind, placeInLattice, calculate_ed_data, after_call, update.
  cbn -[Nat.ltb].
  destruct (Nat.eq_dec structure structure) as [_|Hne]; [|congruence].
  destruct (diffractor _ _ _) as [e|data]; [reflexivity|].
  cbn -[Nat.ltb].
  destruct (0 <? length (DiffractionSimulation.intensities data)); destruct st; reflexivity.
Qed.

(** ** Traces *)

Lemma outcome_succeeded {A} trace (x : A) :
  trace_outcome trace (inr x) -> Forall succeeded trace.
Proof.
  intros [H|(pre & c & e & _ & _ & _ & H)]; [assumption|discriminate].
Qed.

Lemma outcome_cons {A} call trace (res : exn + A) :
  succeeded call -> trace_outcome trace res -> trace_outcome (call :: trace) res.
Proof.
  intros Hc [H|(pre & c & e & -> & Hpre & Hsim & ->)].
  - left. constructor; assumption.
  - right. exists (call :: pre), c, e. repeat split; auto.
Qed.

Lemma outcome_app {A B} trace1 trace2 (x : A) (res : exn + B) :
  trace_outcome trace1 (inr x) -> trace_outcome trace2 res ->
  trace_outcome (trace1 ++ trace2) res.
Proof.
  intros H1 H2. apply outcome_succeeded in H1.
  induction H1 as [|c t Hc Ht IH]; simpl; [assumption|].
  apply outcome_cons; assumption.
Qed.

Lemma outcome_raise {A B} trace e :
  trace_outcome trace (inl e : exn + A) -> trace_outcome trace (inl e : exn + B).
Proof.
  intros [H|(pre & c & e' & -> & Hpre & Hsim & Heq)].
  - left; assumption.
  - right. exists pre, c, e'. repeat split; auto. congruence.
Qed.

Lemma outcome_failed {A} pre call post e (res : exn + A) :
  trace_outcome (pre ++ call :: post) res ->
  simulate call = inl e ->
  post = [] /\ res = inl e.
Proof.
  intros [H|(pre' & c & e' & Heq & Hpre & Hsim & ->)] Hfail.
  - apply Forall_app in H. destruct H as [_ H].
    inversion H as [|? ? [d Hd] _]; subst. congruence.
  - destruct post as [|c' post] using rev_ind.
    + apply app_inj_tail in Heq. destruct Heq as [_ <-].
      split; congruence.
    + clear IHpost. exfalso.
      change (pre ++ call :: post ++ [c']) with (pre ++ (call :: post) ++ [c']) in Heq.
      rewrite app_assoc in Heq. apply app_inj_tail in Heq.
      destruct Heq as [<- _].
      apply Forall_app in Hpre. destruct Hpre as [_ Hpre].
      inversion Hpre as [|? ? [d Hd] _]; subst. congruence.
Qed.

Lemma last_cons {A} (x d : A) l : last (x :: l) d = last l x.
Proof.
  revert x d. induction l as [|y l IH]; intros x d; [reflexivity|].
  change (last (x :: y :: l) d) with (last (y :: l) d).
  rewrite !IH. reflexivity.
Qed.

(** ** The loop over the orientations of one phase *)

Lemma phase_inv_step key st o record (keep : bool) :
  phase_inv key st ->
  phase_inv key
    (if keep
     then
       let phase := Dict.set Orientation_eq_dec o record (fst st) in
       (phase, Dict.set PhaseId_eq_dec key phase (snd st))
     else st).
Proof.
  intros Hinv. destruct keep; [|assumption].
  left. cbn. apply get_set_same.
Qed.

Lemma orientation_loop_spec key l a b c alpha beta gamma :
  forall oris st w res w',
  foldM (orientation_body diffractor key l a b c alpha beta gamma
           calibration reciprocal_radius half_shape with_direct_beam)
    oris st w = (res, w') ->
  exists new,
    calls w' = calls w ++ new /\
    Forall (call_from key a b c alpha beta gamma oris) new /\
    trace_outcome new res /\
    (exists rest, oris = map call_orientation new ++ rest /\
                  forall st', res = inr st' -> rest = []) /\
    (forall r, r <> l -> store w' r = store w r) /\
    store w' l = last (map call_structure new) (store w l) /\
    (forall st', res = inr st' -> phase_inv key st ->
       snd st' = fold_left replay_call new (snd st) /\ phase_inv key st').
Proof.
  induction oris as [|o oris IH]; intros st w res w' Hrun.
  - simpl in Hrun. unfold ret in Hrun. injection Hrun as <- <-.
    exists []. rewrite app_nil_r. repeat split; auto.
    + left; constructor.
    + exists []. auto.
    + injection H as <-. reflexivity.
    + injection H as <-. assumption.
  - simpl in Hrun. unfold bind in Hrun. rewrite orientation_body_run in Hrun.
    destruct (rotation_of o) as [m|] eqn:Hrot.
    2: { injection Hrun as <- <-.
         exists []. rewrite app_nil_r. repeat split; auto; try discriminate.
         - left; constructor.
         - exists (o :: oris). split; [reflexivity|discriminate]. }
    cbv zeta in Hrun.
    set (L := Lattice.Lattice a b c alpha beta gamma m) in *.
    set (s1 := Structure.placeInLattice (store w l) L) in *.
    set (c1 := {| call_key := key; call_orientation := o; call_structure := s1 |}).
    assert (Hfrom1 : call_from key a b c alpha beta gamma (o :: oris) c1).
    { split; [reflexivity|]. split; [left; reflexivity|].
      exists m. split; [assumption|reflexivity]. }
    destruct (diffractor s1 reciprocal_radius with_direct_beam) as [e|d] eqn:Hsim.
    + injection Hrun as <- <-.
      exists [c1]. repeat split; auto; try discriminate.
      * right. exists [], c1, e. repeat split; auto.
      * exists oris. split; [reflexivity|discriminate].
      * intros r Hr. simpl. unfold update.
        destruct (Nat.eq_dec r l); [contradiction|reflexivity].
      * simpl. unfold update. destruct (Nat.eq_dec l l); [reflexivity|contradiction].
    + apply IH in Hrun.
      destruct Hrun as (new & Hcalls & Hfrom & Hout & (rest & Hrest & Hdone)
                        & Hother & Hl & Hreplay).
      exists (c1 :: new). repeat split.
      * rewrite Hcalls. simpl. rewrite <- app_assoc. reflexivity.
      * constructor; [assumption|].
        eapply Forall_impl; [|exact Hfrom].
        intros c0 (Hk & Hin & Hm). split; [assumption|]. split; [right; assumption|assumption].
      * apply outcome_cons; [|assumption]. exists d. exact Hsim.
      * exists rest. split; [simpl; rewrite <- Hrest; reflexivity|assumption].
      * intros r Hr. rewrite Hother by assumption. simpl. unfold update.
        destruct (Nat.eq_dec r l); [contradiction|reflexivity].
      * rewrite Hl. simpl store. unfold update.
        destruct (Nat.eq_dec l l); [|contradiction].
        change (map call_structure (c1 :: new)) with (s1 :: map call_structure new).
        rewrite last_cons. reflexivity.
      * destruct (Hreplay st' H) as [Heq _].
        { apply phase_inv_step; assumption. }
        rewrite Heq. simpl fold_left. f_equal.
        unfold replay_call, retained, simulate.
        simpl call_structure. rewrite Hsim.
        destruct (0 <? length (DiffractionSimulation.intensities d)); [|reflexivity].
        simpl. destruct H0 as [Hg|[Hnil Hg]]; rewrite Hg; [reflexivity|].
        rewrite Hnil. reflexivity.
      * apply (Hreplay st' H). apply phase_inv_step; assumption.
Qed.

(** ** The loop over the phases *)

Lemma phase_body_run items lib key w :
  phase_body diffractor items calibration reciprocal_radius half_shape
    with_direct_beam lib key w =
  match Dict.get PhaseId_eq_dec key items with
  | None => (inl KeyError, w)
  | Some entry =>
      let L := Structure.lattice (store w (fst entry)) in
      match foldM (orientation_body diffractor key (fst entry)
                     (Lattice.a L) (Lattice.b L) (Lattice.c L)
                     (Lattice.alpha L) (Lattice.beta L) (Lattice.gamma L)
                     calibration reciprocal_radius half_shape with_direct_beam)
              (snd entry) ([], lib) w with
      | (inl e, w') => (inl e, w')
      | (inr st, w') => (inr (snd st), w')
      end
  end.
Proof.
  unfold phase_body, dict_getitem, bind at 1.
  destruct (Dict.get PhaseId_eq_dec key items) as [entry|]; [|reflexivity].
  unfold ret at 1. unfold bind at 1. unfold deref. unfold bind.
  cbv zeta.
  destruct (foldM _ _ _ _) as [[e|st] w']; reflexivity.
Qed.

Lemma cell_rotated_lattice L matrix : cell (rotated_lattice L matrix) = cell L.
Proof. reflexivity. Qed.

Lemma rotated_lattice_cell L L' matrix :
  cell L = cell L' -> rotated_lattice L matrix = rotated_lattice L' matrix.
Proof.
  unfold cell, rotated_lattice. intros Heq. injection Heq as -> -> -> -> -> ->.
  reflexivity.
Qed.

Lemma fold_replay_other key key' trace lib :
  Forall (fun call => call_key call = key) trace -> key' <> key ->
  Dict.get PhaseId_eq_dec key' (fold_left replay_call trace lib) =
  Dict.get PhaseId_eq_dec key' lib.
Proof.
  intros Hall Hne. revert lib.
  induction Hall as [|call trace Hk _ IH]; intros lib; [reflexivity|].
  simpl. rewrite IH. unfold replay_call.
  destruct (retained call); [|reflexivity].
  rewrite Hk. apply get_set_other. assumption.
Qed.

Lemma last_call_lattice key a b c alpha beta gamma oris new s0 :
  Forall (call_from key a b c alpha beta gamma oris) new ->
  map call_orientation new = oris ->
  Structure.lattice (last (map call_structure new) s0) =
  match rev oris with
  | o :: _ =>
      match rotation_of o with
      | Some matrix => Lattice.Lattice a b c alpha beta gamma matrix
      | None => Structure.lattice s0
      end
  | [] => Structure.lattice s0
  end.
Proof.
  intros Hall <-.
  destruct new as [|call new _] using rev_ind; [reflexivity|].
  rewrite !map_app, rev_app_distr. simpl.
  rewrite last_last.
  apply Forall_app in Hall. destruct Hall as [_ Hall].
  inversion Hall as [|? ? (_ & _ & m & Hrot & Hlat) _]; subst.
  rewrite Hrot. exact Hlat.
Qed.

Lemma last_call_cell key a b c alpha beta gamma oris new s0 :
  Forall (call_from key a b c alpha beta gamma oris) new ->
  cell (Structure.lattice s0) = (a, b, c, alpha, beta, gamma) ->
  cell (Structure.lattice (last (map call_structure new) s0)) =
  (a, b, c, alpha, beta, gamma).
Proof.
  intros Hall Hs0.
  destruct new as [|call new _] using rev_ind; [exact Hs0|].
  rewrite map_app. simpl. rewrite last_last.
  apply Forall_app in Hall. destruct Hall as [_ Hall].
  inversion Hall as [|? ? (_ & _ & m & _ & Hlat) _]; subst.
  rewrite Hlat. reflexivity.
Qed.

Lemma phase_spec items lib key entry w res w1 :
  phase_body diffractor items calibration reciprocal_radius half_shape
    with_direct_beam lib key w = (res, w1) ->
  Dict.get PhaseId_eq_dec key items = Some entry ->
  exists new,
    calls w1 = calls w ++ new /\
    Forall (fun call =>
              call_key call = key /\
              In (call_orientation call) (snd entry) /\
              exists matrix,
                rotation_of (call_orientation call) = Some matrix /\
                Structure.lattice (call_structure call) =
                  rotated_lattice (Structure.lattice (store w (fst entry))) matrix)
           new /\
    trace_outcome new res /\
    (exists rest, snd entry = map call_orientation new ++ rest /\
                  forall lib', res = inr lib' -> rest = []) /\
    (forall r, cell (Structure.lattice (store w1 r)) =
               cell (Structure.lattice (store w r))) /\
    (forall lib', res = inr lib' -> forall r,
        Structure.lattice (store w1 r) =
        phase_lattice items r (Structure.lattice (store w r)) key) /\
    (forall lib', res = inr lib' ->
        Dict.get PhaseId_eq_dec key lib = None ->
        lib' = fold_left replay_call new lib).
Proof.
  intros Hrun Hget. rewrite phase_body_run, Hget in Hrun. cbv zeta in Hrun.
  destruct (foldM _ _ _ _) as [res0 w0] eqn:Hinner.
  apply orientation_loop_spec in Hinner.
  destruct Hinner as (new & Hcalls & Hfrom & Hout & (rest & Hrest & Hdone)
                      & Hother & Hl & Hreplay).
  assert (Hw : w0 = w1) by (destruct res0; congruence). subst w0.
  assert (Hcell : forall r, cell (Structure.lattice (store w1 r)) =
                            cell (Structure.lattice (store w r))).
  { intros r. destruct (Nat.eq_dec r (fst entry)) as [->|Hr].
    - rewrite Hl. erewrite last_call_cell; [|exact Hfrom|reflexivity]. reflexivity.
    - rewrite Hother by assumption. reflexivity. }
  exists new. split; [assumption|]. split; [exact Hfrom|].
  destruct res0 as [e|st].
  - injection Hrun as <-. repeat split; auto; try discriminate.
    + apply outcome_raise with (1 := Hout).
    + exists rest. split; [assumption|discriminate].
  - injection Hrun as <-.
    assert (Hrest0 : rest = []) by (eapply Hdone; reflexivity).
    subst rest. rewrite app_nil_r in Hrest.
    repeat split; auto.
    + destruct Hout as [H|(pre & c0 & e & _ & _ & _ & H)]; [left; exact H|discriminate].
    + exists []. rewrite app_nil_r. auto.
    + intros lib' _ r. unfold phase_lattice. rewrite Hget.
      destruct (Nat.eq_dec (fst entry) r) as [<-|Hr].
      * rewrite Hl. erewrite last_call_lattice; [|exact Hfrom|symmetry; exact Hrest].
        destruct (rev (snd entry)) as [|o ?]; [reflexivity|].
        destruct (rotation_of o); reflexivity.
      * rewrite Hother by congruence. reflexivity.
    + intros lib' Hlib Hnone. injection Hlib as <-.
      destruct (Hreplay st eq_refl) as [Heq _]; [|exact Heq].
      right. split; [reflexivity|exact Hnone].
Qed.

Lemma planned_cons items key keys :
  planned items (key :: keys) =
  match Dict.get PhaseId_eq_dec key items with
  | Some entry => map (pair key) (snd entry)
  | None => []
  end ++ planned items keys.
Proof. reflexivity. Qed.

Lemma signature_of_phase key (new : list Call) :
  Forall (fun call => call_key call = key) new ->
  map signature new = map (pair key) (map call_orientation new).
Proof.
  induction 1 as [|call new Hk _ IH]; [reflexivity|].
  simpl. rewrite IH. unfold signature. rewrite Hk. reflexivity.
Qed.

Lemma phase_loop_spec items :
  forall keys lib w res w',
  foldM (phase_body diffractor items calibration reciprocal_radius half_shape
           with_direct_beam) keys lib w = (res, w') ->
  exists new,
    calls w' = calls w ++ new /\
    Forall (call_of_library items keys (store w)) new /\
    trace_outcome new res /\
    (exists rest, planned items keys = map signature new ++ rest /\
                  forall lib', res = inr lib' -> rest = []) /\
    (forall r, cell (Structure.lattice (store w' r)) =
               cell (Structure.lattice (store w r))) /\
    (forall lib', res = inr lib' -> forall r,
        Structure.lattice (store w' r) =
        final_lattice items keys r (Structure.lattice (store w r))) /\
    (forall lib', res = inr lib' -> NoDup keys ->
        (forall k, In k keys -> Dict.get PhaseId_eq_dec k lib = None) ->
        lib' = fold_left replay_call new lib).
Proof.
  induction keys as [|key keys IH]; intros lib w res w' Hrun.
  - simpl in Hrun. unfold ret in Hrun. injection Hrun as <- <-.
    exists []. rewrite app_nil_r. repeat split; auto.
    + left; constructor.
    + exists []. auto.
    + intros lib' H _ _. injection H as <-. reflexivity.
  - simpl in Hrun. unfold bind in Hrun.
    destruct (phase_body _ _ _ _ _ _ lib key w) as [res1 w1] eqn:Hphase.
    destruct (Dict.get PhaseId_eq_dec key items) as [entry|] eqn:Hget.
    2: { rewrite phase_body_run, Hget in Hphase. injection Hphase as <- <-.
         injection Hrun as <- <-.
         exists []. rewrite app_nil_r. repeat split; auto; try discriminate.
         - left; constructor.
         - exists (planned items keys). rewrite planned_cons, Hget.
           split; [reflexivity|discriminate]. }
    destruct (phase_spec _ _ _ _ Hphase Hget)
      as (new1 & Hcalls1 & Hfrom1 & Hout1 & (rest1 & Hrest1 & Hdone1)
          & Hcell1 & Hlat1 & Hreplay1).
    assert (Hkeys1 : Forall (fun call => call_key call = key) new1).
    { eapply Forall_impl; [|exact Hfrom1]. intros c0 H; apply H. }
    assert (Hlib1 : Forall (call_of_library items (key :: keys) (store w)) new1).
    { eapply Forall_impl; [|exact Hfrom1].
      intros c0 (Hk & Hin & m & Hrot & Hlat).
      split; [left; congruence|].
      exists (fst entry), (snd entry), m. rewrite Hk, Hget.
      destruct entry; auto. }
    destruct res1 as [e|lib1].
    + injection Hrun as <- <-.
      exists new1. repeat split; auto; try discriminate.
      exists (map (pair key) rest1 ++ planned items keys).
      split; [|discriminate].
      rewrite planned_cons, Hget, Hrest1, map_app, <- app_assoc.
      rewrite (signature_of_phase Hkeys1). reflexivity.
    + assert (Hrest0 : rest1 = []) by (eapply Hdone1; reflexivity).
      subst rest1. rewrite app_nil_r in Hrest1.
      apply IH in Hrun.
      destruct Hrun as (new2 & Hcalls2 & Hfrom2 & Hout2 & (rest2 & Hrest2 & Hdone2)
                        & Hcell2 & Hlat2 & Hreplay2).
      exists (new1 ++ new2). repeat split.
      * rewrite Hcalls2, Hcalls1, app_assoc. reflexivity.
      * apply Forall_app. split; [assumption|].
        eapply Forall_impl; [|exact Hfrom2].
        intros c0 (Hin & l & oris & m & Hg & Ho & Hrot & Hlat).
        split; [right; assumption|].
        exists l, oris, m. repeat split; auto.
        rewrite Hlat. apply rotated_lattice_cell. apply Hcell1.
      * eapply outcome_app; eassumption.
      * exists rest2. split; [|assumption].
        rewrite planned_cons, Hget, Hrest2, map_app, Hrest1, <- app_assoc.
        rewrite (signature_of_phase Hkeys1). reflexivity.
      * intros r. rewrite Hcell2. apply Hcell1.
      * intros lib' Hres r. rewrite (Hlat2 lib' Hres r).
        rewrite (Hlat1 lib1 eq_refl r). reflexivity.
      * intros lib' Hres Hnd Hnone.
        apply NoDup_cons_iff in Hnd. destruct Hnd as [Hnotin Hnd'].
        rewrite fold_left_app.
        rewrite <- (Hreplay1 lib1 eq_refl); [|apply Hnone; left; reflexivity].
        apply (Hreplay2 lib' Hres Hnd').
        intros k Hk.
        rewrite (Hreplay1 lib1 eq_refl); [|apply Hnone; left; reflexivity].
        rewrite (fold_replay_other _ Hkeys1); [apply Hnone; right; assumption|].
        intros ->. contradiction.
Qed.

End Runs.

(** ** What a trace leaves in the library *)

Section Replay.
Context {N : Numerics} {E : Externals}.
Variable diffractor : Calculator.
Variables calibration reciprocal_radius : F.
Variable half_shape : F * F.
Variable with_direct_beam : bool.

Local Abbreviation retained := (retained diffractor reciprocal_radius with_direct_beam).
Local Abbreviation replay_call :=
  (replay_call diffractor calibration reciprocal_radius half_shape with_direct_beam).
Local Abbreviation replay :=
  (replay diffractor calibration reciprocal_radius half_shape with_direct_beam).
Local Abbreviation record_of :=
  (fun data =>
     make_record (DiffractionSimulation.set_calibration data calibration)
       half_shape).

Lemma replay_snoc trace call :
  replay (trace ++ [call]) = replay_call (replay trace) call.
Proof. unfold replay. rewrite fold_left_app. reflexivity. Qed.

Lemma replay_call_get lib call key :
  Dict.get PhaseId_eq_dec key (replay_call lib call) =
  match retained call with
  | Some data =>
      if PhaseId_eq_dec key (call_key call) then
        Some (Dict.set Orientation_eq_dec (call_orientation call) (record_of data)
                match Dict.get PhaseId_eq_dec (call_key call) lib with
                | Some phase => phase
                | None => []
                end)
      else Dict.get PhaseId_eq_dec key lib
  | None => Dict.get PhaseId_eq_dec key lib
  end.
Proof.
  unfold replay_call. destruct (retained call) as [data|]; [|reflexivity].
  destruct (PhaseId_eq_dec key (call_key call)) as [->|Hne].
  - apply get_set_same.
  - apply get_set_other. assumption.
Qed.

Lemma replay_sound trace key phase o record :
  Dict.get PhaseId_eq_dec key (replay trace) = Some phase ->
  Dict.get Orientation_eq_dec o phase = Some record ->
  exists call data,
    In call trace /\ call_key call = key /\ call_orientation call = o /\
    retained call = Some data /\ record = record_of data.
Proof.
  revert phase o record.
  induction trace as [|c trace IH] using rev_ind; intros phase o record Hk Ho.
  - discriminate.
  - assert (Hweak : forall P : Call -> Prop,
               (exists call, In call trace /\ P call) ->
               exists call, In call (trace ++ [c]) /\ P call).
    { intros P (call & Hin & HP). exists call. split; [|assumption].
      apply in_or_app. left. assumption. }
    assert (IH' : forall phase o record,
               Dict.get PhaseId_eq_dec key (replay trace) = Some phase ->
               Dict.get Orientation_eq_dec o phase = Some record ->
               exists call data,
                 In call (trace ++ [c]) /\ call_key call = key /\
                 call_orientation call = o /\
                 retained call = Some data /\ record = record_of data).
    { intros p1 o1 r1 H1 H2. destruct (IH p1 o1 r1 H1 H2) as (call & data & Hin & H).
      exists call, data. split; [apply in_or_app; left; assumption|assumption]. }
    rewrite replay_snoc, replay_call_get in Hk.
    destruct (retained c) as [d|] eqn:Hret; [|eauto].
    destruct (PhaseId_eq_dec key (call_key c)) as [->|Hne]; [|eauto].
    injection Hk as <-.
    destruct (Orientation_eq_dec o (call_orientation c)) as [->|Hno].
    + rewrite get_set_same in Ho. injection Ho as <-.
      exists c, d. repeat split; auto. apply in_or_app. right. left. reflexivity.
    + rewrite get_set_other in Ho by assumption.
      destruct (Dict.get PhaseId_eq_dec (call_key c) (replay trace)) as [p0|] eqn:Hp0.
      * eapply IH'; [reflexivity|eassumption].
      * discriminate.
Qed.

Lemma replay_complete trace call data :
  In call trace -> retained call = Some data ->
  exists phase,
    Dict.get PhaseId_eq_dec (call_key call) (replay trace) = Some phase /\
    In (call_orientation call) (Dict.keys phase).
Proof.
  intros Hin Hret.
  induction trace as [|c trace IH] using rev_ind; [contradiction|].
  rewrite replay_snoc, replay_call_get.
  apply in_app_or in Hin. destruct Hin as [Hin|[<-|[]]].
  - destruct (IH Hin) as (phase & Hg & Ho).
    destruct (retained c) as [d|]; [|eauto].
    destruct (PhaseId_eq_dec (call_key call) (call_key c)) as [Heq|Hne]; [|eauto].
    rewrite <- Heq, Hg. eexists. split; [reflexivity|].
    apply keys_set. right. assumption.
  - rewrite Hret.
    destruct (PhaseId_eq_dec (call_key c) (call_key c)); [|contradiction].
    eexists. split; [reflexivity|]. apply keys_set. left. reflexivity.
Qed.


Lemma replay_unique trace :
  NoDup (Dict.keys (replay trace)) /\
  forall key phase,
    Dict.get PhaseId_eq_dec key (replay trace) = Some phase ->
    NoDup (Dict.keys phase) /\ phase <> [].
Proof.
  induction trace as [|c trace [IHk IHp]] using rev_ind.
  - split; [constructor|discriminate].
  - rewrite replay_snoc. split.
    + unfold replay_call. destruct (retained c); [|assumption].
      apply NoDup_keys_set. assumption.
    + intros key phase. rewrite replay_call_get.
      destruct (retained c) as [d|]; [|apply IHp].
      destruct (PhaseId_eq_dec key (call_key c)) as [->|Hne]; [|apply IHp].
      intros H. injection H as <-. split; [|apply set_nonempty].
      apply NoDup_keys_set.
      destruct (Dict.get PhaseId_eq_dec (call_key c) (replay trace)) as [p0|] eqn:Hp0.
      * apply (IHp _ _ Hp0).
      * constructor.
Qed.



End Replay.

(** ** Runs that cannot fail *)

Section Returns.
Context {N : Numerics} {E : Externals}.
Variable diffractor : Calculator.
Variables calibration reciprocal_radius : F.
Variable half_shape : F * F.
Variable with_direct_beam : bool.

Hypothesis diffractor_returns :
  forall s, exists data, diffractor s reciprocal_radius with_direct_beam = inr data.

Lemma rotation_of_triple (o : Orientation) :
  3 <= length o -> exists matrix, rotation_of o = Some matrix.
Proof.
  unfold rotation_of.
  destruct o as [|x0 [|x1 [|x2 rest]]]; simpl; try lia.
  intros _. eexists. reflexivity.
Qed.

Lemma orientation_loop_returns key l a b c alpha beta gamma oris :
  Forall (fun o : Orientation => 3 <= length o) oris ->
  forall st w, exists st' w',
    foldM (orientation_body diffractor key l a b c alpha beta gamma
             calibration reciprocal_radius half_shape with_direct_beam)
      oris st w = (inr st', w').
Proof.
  induction 1 as [|o oris Ho _ IH]; intros st w.
  - exists st, w. reflexivity.
  - simpl. unfold bind. rewrite orientation_body_run.
    destruct (rotation_of_triple o Ho) as [m ->]. cbv zeta.
    destruct (diffractor_returns
                (Structure.placeInLattice (store w l)
                   (Lattice.Lattice a b c alpha beta gamma m))) as [d ->].
    apply IH.
Qed.

Lemma phase_loop_returns items keys :
  (forall key, In key keys ->
     exists entry, Dict.get PhaseId_eq_dec key items = Some entry /\
                   Forall (fun o : Orientation => 3 <= length o) (snd entry)) ->
  forall lib w, exists lib' w',
    foldM (phase_body diffractor items calibration reciprocal_radius half_shape
             with_direct_beam) keys lib w = (inr lib', w').
Proof.
  induction keys as [|key keys IH]; intros Hwf lib w.
  - exists lib, w. reflexivity.
  - simpl. unfold bind. rewrite phase_body_run.
    destruct (Hwf key (or_introl eq_refl)) as (entry & -> & Hentry). cbv zeta.
    edestruct orientation_loop_returns as (st' & w1 & ->); [exact Hentry|].
    apply IH. intros k Hk. apply Hwf. right. assumption.
Qed.

End Returns.

(** ** Two runs from stores that agree *)

Section Twice.
Context {N : Numerics} {E : Externals}.
Variable diffractor : Calculator.
Variables calibration reciprocal_radius : F.
Variable half_shape : F * F.
Variable with_direct_beam : bool.

Lemma agree_refl s : agree s s.
Proof. split; reflexivity. Qed.

Lemma agree_trans s1 s2 s3 : agree s1 s2 -> agree s2 s3 -> agree s1 s3.
Proof.
  intros [Hc1 Hp1] [Hc2 Hp2]. split; [congruence|].
  intros L. rewrite Hp1. apply Hp2.
Qed.

Lemma stores_agree_refl h : stores_agree h h.
Proof. intros r. apply agree_refl. Qed.

Lemma stores_agree_trans h1 h2 h3 :
  stores_agree h1 h2 -> stores_agree h2 h3 -> stores_agree h1 h3.
Proof. intros H1 H2 r. eapply agree_trans; [apply H1|apply H2]. Qed.

Lemma stores_agree_update h1 h2 l s :
  stores_agree h1 h2 -> stores_agree (update h1 l s) (update h2 l s).
Proof.
  intros H r. unfold update. destruct (Nat.eq_dec r l); [apply agree_refl|apply H].
Qed.

Lemma orientation_loop_agree key l a b c alpha beta gamma :
  forall oris st w v res w',
  stores_agree (store w) (store v) ->
  foldM (orientation_body diffractor key l a b c alpha beta gamma
           calibration reciprocal_radius half_shape with_direct_beam)
    oris st w = (res, w') ->
  exists v',
    foldM (orientation_body diffractor key l a b c alpha beta gamma
             calibration reciprocal_radius half_shape with_direct_beam)
      oris st v = (res, v') /\
    stores_agree (store w') (store v').
Proof.
  induction oris as [|o oris IH]; intros st w v res w' Hagree Hrun.
  - simpl in *. unfold ret in *. injection Hrun as <- <-.
    exists v. split; [reflexivity|assumption].
  - simpl in *. unfold bind in *. rewrite orientation_body_run in *.
    destruct (rotation_of o) as [m|].
    2: { injection Hrun as <- <-. exists v. split; [reflexivity|assumption]. }
    cbv zeta in *. unfold after_call in *.
    destruct (Hagree l) as [_ Hplace]. rewrite <- Hplace.
    set (s1 := Structure.placeInLattice (store w l)
                 (Lattice.Lattice a b c alpha beta gamma m)) in *.
    destruct (diffractor s1 reciprocal_radius with_direct_beam) as [e|d].
    + injection Hrun as <- <-. eexists. split; [reflexivity|].
      simpl. apply stores_agree_update. assumption.
    + eapply IH; [|exact Hrun]. simpl. apply stores_agree_update. assumption.
Qed.

Lemma phase_loop_agree items :
  forall keys lib w v res w',
  stores_agree (store w) (store v) ->
  foldM (phase_body diffractor items calibration reciprocal_radius half_shape
           with_direct_beam) keys lib w = (res, w') ->
  exists v',
    foldM (phase_body diffractor items calibration reciprocal_radius half_shape
             with_direct_beam) keys lib v = (res, v') /\
    stores_agree (store w') (store v').
Proof.
  induction keys as [|key keys IH]; intros lib w v res w' Hagree Hrun.
  - simpl in *. unfold ret in *. injection Hrun as <- <-.
    exists v. split; [reflexivity|assumption].
  - simpl in *. unfold bind in *. rewrite phase_body_run in *.
    destruct (Dict.get PhaseId_eq_dec key items) as [entry|].
    2: { injection Hrun as <- <-. exists v. split; [reflexivity|assumption]. }
    cbv zeta in *.
    destruct (Hagree (fst entry)) as [Hcell _].
    unfold cell in Hcell. injection Hcell as Ha Hb Hc Halpha Hbeta Hgamma.
    rewrite <- Ha, <- Hb, <- Hc, <- Halpha, <- Hbeta, <- Hgamma.
    destruct (foldM (orientation_body _ _ _ _ _ _ _ _ _ _ _ _ _) _ _ w)
      as [res1 w1] eqn:Hinner.
    edestruct orientation_loop_agree as (v1 & Hv1 & Hagree1);
      [exact Hagree|exact Hinner|]. rewrite Hv1.
    destruct res1 as [e|st1].
    + injection Hrun as <- <-. exists v1. split; [reflexivity|assumption].
    + eapply IH; eassumption.
Qed.

Hypothesis placement_absorbs :
  forall s L1 L2,
    Structure.placeInLattice (Structure.placeInLattice s L1) L2 =
    Structure.placeInLattice s L2.

Lemma orientation_loop_keeps key l a b c alpha beta gamma :
  forall oris st w res w',
  cell (Structure.lattice (store w l)) = (a, b, c, alpha, beta, gamma) ->
  foldM (orientation_body diffractor key l a b c alpha beta gamma
           calibration reciprocal_radius half_shape with_direct_beam)
    oris st w = (res, w') ->
  stores_agree (store w) (store w').
Proof.
  induction oris as [|o oris IH]; intros st w res w' Hcell Hrun.
  - simpl in Hrun. unfold ret in Hrun. injection Hrun as <- <-.
    apply stores_agree_refl.
  - simpl in Hrun. unfold bind in Hrun. rewrite orientation_body_run in Hrun.
    destruct (rotation_of o) as [m|].
    2: { injection Hrun as <- <-. apply stores_agree_refl. }
    cbv zeta in Hrun.
    set (L := Lattice.Lattice a b c alpha beta gamma m) in *.
    assert (Hstep : stores_agree (store w) (store (after_call key l L o w))).
    { intros r. simpl. unfold update.
      destruct (Nat.eq_dec r l) as [->|]; [|apply agree_refl].
      split; [rewrite Hcell; reflexivity|].
      intros L'. symmetry. apply placement_absorbs. }
    destruct (diffractor _ _ _) as [e|d].
    + injection Hrun as <- <-. exact Hstep.
    + eapply stores_agree_trans; [exact Hstep|].
      eapply IH; [|exact Hrun].
      simpl. unfold update. destruct (Nat.eq_dec l l); [reflexivity|contradiction].
Qed.

Lemma phase_loop_keeps items :
  forall keys lib w res w',
  foldM (phase_body diffractor items calibration reciprocal_radius half_shape
           with_direct_beam) keys lib w = (res, w') ->
  stores_agree (store w) (store w').
Proof.
  induction keys as [|key keys IH]; intros lib w res w' Hrun.
  - simpl in Hrun. unfold ret in Hrun. injection Hrun as <- <-.
    apply stores_agree_refl.
  - simpl in Hrun. unfold bind in Hrun. rewrite phase_body_run in Hrun.
    destruct (Dict.get PhaseId_eq_dec key items) as [entry|].
    2: { injection Hrun as <- <-. apply stores_agree_refl. }
    cbv zeta in Hrun.
    destruct (foldM (orientation_body _ _ _ _ _ _ _ _ _ _ _ _ _) _ _ w)
      as [res1 w1] eqn:Hinner.
    apply orientation_loop_keeps in Hinner; [|reflexivity].
    destruct res1 as [e|st1].
    + injection Hrun as <- <-. assumption.
    + eapply stores_agree_trans; [exact Hinner|]. eapply IH. exact Hrun.
Qed.

End Twice.

(** ** The whole call *)

Section Library.
Context {N : Numerics} {E : Externals}.
Variable self : DiffractionLibraryGenerator.
Variable structure_library : StructureLibrary.
Variables calibration reciprocal_radius : F.
Variable half_shape : F * F.
Variable with_direct_beam : bool.

Local Abbreviation diffractor := (electron_diffraction_calculator self).
Local Abbreviation items := (sl_items (struct_lib structure_library)).
Local Abbreviation simulate := (simulate diffractor reciprocal_radius with_direct_beam).
Local Abbreviation retained := (retained diffractor reciprocal_radius with_direct_beam).
Local Abbreviation replay_call :=
  (replay_call diffractor calibration reciprocal_radius half_shape with_direct_beam).
Local Abbreviation replay :=
  (replay diffractor calibration reciprocal_radius half_shape with_direct_beam).
Local Abbreviation succeeded := (succeeded diffractor reciprocal_radius with_direct_beam).
Local Abbreviation trace_outcome :=
  (trace_outcome diffractor reciprocal_radius with_direct_beam).
Local Abbreviation run :=
  (get_diffraction_library self structure_library calibration reciprocal_radius
     half_shape with_direct_beam).

Lemma get_diffraction_library_run w :
  run w =
  match foldM (phase_body diffractor items calibration reciprocal_radius
                 half_shape with_direct_beam) (Dict.keys items) [] w with
  | (inl e, w') => (inl e, w')
  | (inr lib, w') =>
      match sl_indentifiers (struct_lib structure_library) with
      | None => (inl (AttributeError "indentifiers"), w')
      | Some ids =>
          match sl_structures (struct_lib structure_library) with
          | None => (inl (AttributeError "structures"), w')
          | Some structs =>
              (inr {| dl_items := lib; dl_identifiers := ids;
                      dl_structures := structs |}, w')
          end
      end
  end.
Proof.
  unfold get_diffraction_library, bind at 1.
  destruct (foldM _ _ _ _) as [[e|lib] w']; [reflexivity|].
  unfold getattr, bind, ret, raise.
  destruct (sl_indentifiers _); [|reflexivity].
  destruct (sl_structures _); reflexivity.
Qed.

Lemma get_diffraction_library_spec h res w' :
  run (init_world h) = (res, w') ->
  Forall (call_of_library items (Dict.keys items) h) (calls w') /\
  trace_outcome (calls w') res /\
  (exists rest,
      planned items (Dict.keys items) = map signature (calls w') ++ rest /\
      forall lib, res = inr lib -> rest = []) /\
  (forall r, cell (Structure.lattice (store w' r)) = cell (Structure.lattice (h r))) /\
  (forall lib, res = inr lib ->
      (forall r, Structure.lattice (store w' r) =
                 final_lattice items (Dict.keys items) r (Structure.lattice (h r))) /\
      sl_indentifiers (struct_lib structure_library) = Some (dl_identifiers lib) /\
      sl_structures (struct_lib structure_library) = Some (dl_structures lib) /\
      (NoDup (Dict.keys items) -> dl_items lib = replay (calls w'))).
Proof.
  rewrite get_diffraction_library_run.
  destruct (foldM _ _ _ _) as [res0 w0] eqn:Hloop. intros Hrun.
  apply phase_loop_spec in Hloop.
  destruct Hloop as (new & Hcalls & Hfrom & Hout & (rest & Hrest & Hdone)
                     & Hcell & Hlat & Hreplay).
  simpl in Hcalls, Hfrom, Hcell, Hlat.
  assert (Hw : w0 = w').
  { destruct res0; [congruence|].
    destruct (sl_indentifiers _); [|congruence].
    destruct (sl_structures _); congruence. }
  subst w0. rewrite Hcalls.
  split; [assumption|].
  destruct res0 as [e|lib0].
  - injection Hrun as <-. repeat split; auto; try discriminate.
    + apply outcome_raise with (1 := Hout).
    + exists rest. split; [assumption|discriminate].
  - assert (Hall : Forall succeeded new) by (eapply outcome_succeeded; exact Hout).
    assert (Hrest0 : rest = []) by (eapply Hdone; reflexivity).
    split; [left; exact Hall|].
    split; [exists rest; split; [assumption|intros; assumption]|].
    split; [assumption|].
    intros lib Hres.
    destruct (sl_indentifiers _) as [ids|]; [|congruence].
    destruct (sl_structures _) as [structs|]; [|congruence].
    injection Hrun as <-. injection Hres as <-. simpl.
    split; [eapply Hlat; reflexivity|].
    split; [reflexivity|]. split; [reflexivity|].
    intros Hnd. apply (Hreplay lib0 eq_refl Hnd). reflexivity.
Qed.

Lemma retained_iff call data :
  retained call = Some data <->
  simulate call = inr data /\ DiffractionSimulation.intensities data <> [].
Proof.
  unfold retained. destruct (simulate call) as [e|d].
  - split; [discriminate|intros [H _]; discriminate].
  - destruct (DiffractionSimulation.intensities d) as [|x xs] eqn:Hd; simpl.
    + split; [discriminate|]. intros [H Hne]. injection H as <-. congruence.
    + split.
      * intros H. injection H as <-. split; [reflexivity|]. rewrite Hd. discriminate.
      * intros [H _]. congruence.
Qed.

Lemma get_diffraction_library_returns h :
  (forall s, exists data,
      diffractor s reciprocal_radius with_direct_beam = inr data) ->
  (forall key entry,
      Dict.get PhaseId_eq_dec key items = Some entry ->
      Forall (fun o : Orientation => 3 <= length o) (snd entry)) ->
  sl_indentifiers (struct_lib structure_library) <> None ->
  sl_structures (struct_lib structure_library) <> None ->
  exists lib w', run (init_world h) = (inr lib, w').
Proof.
  intros Hsim Hwf Hids Hstructs. rewrite get_diffraction_library_run.
  edestruct (@phase_loop_returns _ _ diffractor calibration reciprocal_radius
               half_shape with_direct_beam Hsim items (Dict.keys items))
    as (lib & w' & ->).
  - intros key Hin. apply get_in_keys with (K_eq_dec := PhaseId_eq_dec) in Hin.
    destruct Hin as [entry Hentry]. exists entry. split; [assumption|].
    apply (Hwf key). assumption.
  - destruct (sl_indentifiers _); [|contradiction].
    destruct (sl_structures _); [|contradiction].
    eexists. eexists. reflexivity.
Qed.

(** C1. In the library returned by [get_diffraction_library] an orientation
    is a key of a phase's dictionary exactly when a simulator call made for
    that phase and orientation returned a non-empty intensities vector; a
    phase key is present exactly when one of its orientations was retained; a
    phase all of whose simulations are empty is absent.  The simulator is
    called once for every (phase, orientation) of the input, in order, and
    when it never raises, the orientations have three angles and the mapping
    carries its two attributes, the call does return a library. *)
Theorem retained_orientations_are_keys h res w' :
  NoDup (Dict.keys items) ->
  run (init_world h) = (res, w') ->
  ((forall s, exists data,
       diffractor s reciprocal_radius with_direct_beam = inr data) ->
   (forall key entry,
       Dict.get PhaseId_eq_dec key items = Some entry ->
       Forall (fun o : Orientation => 3 <= length o) (snd entry)) ->
   sl_indentifiers (struct_lib structure_library) <> None ->
   sl_structures (struct_lib structure_library) <> None ->
   exists lib, res = inr lib) /\
  (forall lib, res = inr lib ->
     map signature (calls w') = planned items (Dict.keys items) /\
     (forall key o,
        (exists phase,
            Dict.get PhaseId_eq_dec key (dl_items lib) = Some phase /\
            In o (Dict.keys phase)) <->
        (exists call data,
            In call (calls w') /\ call_key call = key /\
            call_orientation call = o /\
            simulate call = inr data /\
            DiffractionSimulation.intensities data <> [])) /\
     (forall key,
        In key (Dict.keys (dl_items lib)) <->
        (exists phase o,
            Dict.get PhaseId_eq_dec key (dl_items lib) = Some phase /\
            In o (Dict.keys phase))) /\
     (forall key,
        (forall call, In call (calls w') -> call_key call = key ->
           exists data, simulate call = inr data /\
                        DiffractionSimulation.intensities data = []) ->
        ~ In key (Dict.keys (dl_items lib)))).
Proof.
  intros Hnd Hrun. split.
  - intros Hsim Hwf Hids Hstructs.
    destruct (get_diffraction_library_returns h Hsim Hwf Hids Hstructs)
      as (lib & w1 & Hrun1).
    exists lib. congruence.
  - intros lib ->.
    destruct (get_diffraction_library_spec h Hrun)
      as (_ & _ & (rest & Hplan & Hdone) & _ & Hlib).
    destruct (Hlib lib eq_refl) as (_ & _ & _ & Hreplay).
    specialize (Hreplay Hnd).
    assert (Hkeys : forall key o,
      (exists phase,
          Dict.get PhaseId_eq_dec key (dl_items lib) = Some phase /\
          In o (Dict.keys phase)) <->
      (exists call data,
          In call (calls w') /\ call_key call = key /\
          call_orientation call = o /\
          simulate call = inr data /\
          DiffractionSimulation.intensities data <> [])).
    { intros key o. rewrite Hreplay. split.
      - intros (phase & Hg & Hin).
        apply get_in_keys with (K_eq_dec := Orientation_eq_dec) in Hin.
        destruct Hin as [record Hrec].
        edestruct replay_sound
          as (call & data & Hcall & Hk & Ho & Hret & _); [exact Hg|exact Hrec|].
        apply retained_iff in Hret. exists call, data. tauto.
      - intros (call & data & Hcall & <- & <- & Hsim).
        apply retained_iff in Hsim.
        eapply replay_complete; eassumption. }
    assert (Hphase : forall key,
      In key (Dict.keys (dl_items lib)) <->
      (exists phase o,
          Dict.get PhaseId_eq_dec key (dl_items lib) = Some phase /\
          In o (Dict.keys phase))).
    { intros key. rewrite (get_in_keys PhaseId_eq_dec). split.
      - intros [phase Hg]. exists phase.
        assert (Hne : phase <> []).
        { rewrite Hreplay in Hg.
          eapply (replay_unique diffractor calibration reciprocal_radius
                    half_shape with_direct_beam (calls w')); exact Hg. }
        destruct phase as [|[o record] phase]; [contradiction|].
        exists o. split; [assumption|left; reflexivity].
      - intros (phase & o & Hg & _). exists phase. assumption. }
    split; [|split; [exact Hkeys|split; [exact Hphase|]]].
    + rewrite Hplan, (Hdone lib eq_refl), app_nil_r. reflexivity.
    + intros key Hempty Hin. apply Hphase in Hin.
      destruct Hin as (phase & o & Hg & Ho).
      destruct (proj1 (Hkeys key o)) as (call & data & Hcall & Hk & _ & Hsim & Hne).
      { exists phase. split; assumption. }
      destruct (Hempty call Hcall Hk) as (data' & Hsim' & Hnil).
      congruence.
Qed.

(** C2. The pixel coordinates stored in a retained record are the first two
    columns of the calibrated coordinates of the stored simulation, each
    shifted by the matching component of [half_shape], rounded and cast to an
    integer; the stored simulation is the simulator's answer with the
    calibration set on it. *)
Theorem pixel_coords_are_rounded_shifts h lib w' key phase o record :
  NoDup (Dict.keys items) ->
  run (init_world h) = (inr lib, w') ->
  Dict.get PhaseId_eq_dec key (dl_items lib) = Some phase ->
  Dict.get Orientation_eq_dec o phase = Some record ->
  pixel_coords record =
    map (fun row : F * F * list F =>
           (astype_int (np_rint (np_add (fst (fst row)) (fst half_shape))),
            astype_int (np_rint (np_add (snd (fst row)) (snd half_shape)))))
        (calibrated_coordinates (Sim record)) /\
  DiffractionSimulation.calibration (Sim record) = calibration /\
  exists call data,
    In call (calls w') /\ call_key call = key /\ call_orientation call = o /\
    simulate call = inr data /\
    Sim record = DiffractionSimulation.set_calibration data calibration.
Proof.
  intros Hnd Hrun Hg Hrec.
  destruct (get_diffraction_library_spec h Hrun) as (_ & _ & _ & _ & Hlib).
  destruct (Hlib lib eq_refl) as (_ & _ & _ & Hreplay).
  rewrite (Hreplay Hnd) in Hg.
  edestruct replay_sound
    as (call & data & Hcall & Hk & Ho & Hret & ->); [exact Hg|exact Hrec|].
  apply retained_iff in Hret. destruct Hret as [Hsim _].
  split; [|split; [reflexivity|]].
  - unfold make_record, astype, rint, add_broadcast, first_two_columns. simpl.
    rewrite !map_map. reflexivity.
  - exists call, data. auto.
Qed.

(** C4. The pattern norm stored in a retained record is the square root of
    the dot product of the stored intensities with themselves, and the stored
    intensities are those of the stored simulation. *)
Theorem pattern_norm_is_euclidean_norm h lib w' key phase o record :
  NoDup (Dict.keys items) ->
  run (init_world h) = (inr lib, w') ->
  Dict.get PhaseId_eq_dec key (dl_items lib) = Some phase ->
  Dict.get Orientation_eq_dec o phase = Some record ->
  pattern_norm record =
    np_sqrt (np_dot (rec_intensities record) (rec_intensities record)) /\
  rec_intensities record = DiffractionSimulation.intensities (Sim record) /\
  rec_intensities record <> [].
Proof.
  intros Hnd Hrun Hg Hrec.
  destruct (get_diffraction_library_spec h Hrun) as (_ & _ & _ & _ & Hlib).
  destruct (Hlib lib eq_refl) as (_ & _ & _ & Hreplay).
  rewrite (Hreplay Hnd) in Hg.
  edestruct replay_sound
    as (call & data & _ & _ & _ & Hret & ->); [exact Hg|exact Hrec|].
  apply retained_iff in Hret. destruct Hret as [_ Hne].
  repeat split; assumption.
Qed.





(** C8. When a simulator call raises, [get_diffraction_library] ends with
    that very exception instead of a library, the failing call is the last
    one made, and the calls made are an initial segment of the (phase,
    orientation) pairs of the input, each simulated once. *)
Theorem simulator_failure_propagates h res w' pre call post e :
  run (init_world h) = (res, w') ->
  calls w' = pre ++ call :: post ->
  simulate call = inl e ->
  res = inl e /\ post = [] /\
  exists rest,
    planned items (Dict.keys items) = map signature (calls w') ++ rest.
Proof.
  intros Hrun Hcalls Hfail.
  destruct (get_diffraction_library_spec h Hrun)
    as (_ & Hout & (rest & Hplan & _) & _ & _).
  rewrite Hcalls in Hout.
  destruct (outcome_failed _ _ Hout Hfail) as [Hpost Hres].
  subst post res.
  split; [reflexivity|]. split; [reflexivity|].
  exists rest. assumption.
Qed.

Lemma cell_phase_lattice r L key : cell (phase_lattice items r L key) = cell L.
Proof.
  unfold phase_lattice.
  destruct (Dict.get PhaseId_eq_dec key items) as [entry|]; [|reflexivity].
  destruct (Nat.eq_dec (fst entry) r); [|reflexivity].
  destruct (rev (snd entry)) as [|o ?]; [reflexivity|].
  destruct (rotation_of o); reflexivity.
Qed.

Lemma cell_final_lattice keys r L : cell (final_lattice items keys r L) = cell L.
Proof.
  unfold final_lattice. revert L.
  induction keys as [|key keys IH]; intros L; [reflexivity|].
  simpl. rewrite IH. apply cell_phase_lattice.
Qed.

Lemma final_lattice_untouched keys r L :
  (forall key entry, In key keys ->
     Dict.get PhaseId_eq_dec key items = Some entry ->
     fst entry = r -> snd entry = []) ->
  final_lattice items keys r L = L.
Proof.
  unfold final_lattice. revert L.
  induction keys as [|key keys IH]; intros L Hfree; [reflexivity|].
  simpl. rewrite IH.
  - unfold phase_lattice.
    destruct (Dict.get PhaseId_eq_dec key items) as [entry|] eqn:Hg; [|reflexivity].
    destruct (Nat.eq_dec (fst entry) r) as [Hr|]; [|reflexivity].
    rewrite (Hfree key entry (or_introl eq_refl) Hg Hr). reflexivity.
  - intros k e Hin. apply Hfree. right. assumption.
Qed.

Lemma in_planned key keys entry (o : Orientation) :
  In key keys -> Dict.get PhaseId_eq_dec key items = Some entry ->
  In o (snd entry) -> In (key, o) (planned items keys).
Proof.
  intros Hin Hg Ho. unfold planned. apply in_flat_map.
  exists key. split; [assumption|]. rewrite Hg. apply in_map. assumption.
Qed.

(** C10 (amended). Every structure handed to the simulator sits in a lattice
    built from the six cell parameters its object had before the call and
    from the rotation of the orientation at hand; the call changes the cell
    parameters of no object; afterwards every object holds the lattice left
    by the last phase that uses it with a non-empty orientation list, which
    for a phase whose structure no later such phase shares is the lattice of
    the phase's own last orientation. *)
Theorem lattices_after_the_call h lib w' :
  run (init_world h) = (inr lib, w') ->
  (forall call, In call (calls w') ->
     exists l orientations matrix,
       Dict.get PhaseId_eq_dec (call_key call) items = Some (l, orientations) /\
       In (call_orientation call) orientations /\
       rotation_of (call_orientation call) = Some matrix /\
       Structure.lattice (call_structure call) =
         rotated_lattice (Structure.lattice (h l)) matrix) /\
  (forall r, cell (Structure.lattice (store w' r)) =
             cell (Structure.lattice (h r))) /\
  (forall r, Structure.lattice (store w' r) =
             final_lattice items (Dict.keys items) r (Structure.lattice (h r))) /\
  (forall pre key post entry,
     Dict.keys items = pre ++ key :: post ->
     Dict.get PhaseId_eq_dec key items = Some entry ->
     snd entry <> [] ->
     (forall key' entry', In key' post ->
        Dict.get PhaseId_eq_dec key' items = Some entry' ->
        fst entry' = fst entry -> snd entry' = []) ->
     exists matrix,
       rotation_of (last (snd entry) []) = Some matrix /\
       Structure.lattice (store w' (fst entry)) =
         rotated_lattice (Structure.lattice (h (fst entry))) matrix).
Proof.
  intros Hrun.
  destruct (get_diffraction_library_spec h Hrun)
    as (Hfrom & _ & (rest & Hplan & Hdone) & Hcell & Hlib).
  destruct (Hlib lib eq_refl) as (Hfinal & _).
  rewrite (Hdone lib eq_refl), app_nil_r in Hplan.
  split; [|split; [exact Hcell|split; [exact Hfinal|]]].
  - intros call Hin. rewrite Forall_forall in Hfrom.
    destruct (Hfrom call Hin) as (_ & H). exact H.
  - intros pre key post entry Hkeys Hg Hne Hfree.
    destruct (exists_last Hne) as (front & o & Hsplit).
    assert (Hlast : last (snd entry) [] = o)
      by (rewrite Hsplit; apply last_last).
    assert (Hrot : exists matrix, rotation_of o = Some matrix).
    { assert (Hin : In (key, o) (planned items (Dict.keys items))).
      { apply in_planned with (entry := entry); [|assumption|].
        - rewrite Hkeys. apply in_or_app. right. left. reflexivity.
        - rewrite Hsplit. apply in_or_app. right. left. reflexivity. }
      rewrite Hplan in Hin. apply in_map_iff in Hin.
      destruct Hin as (call & Hsig & Hcall).
      rewrite Forall_forall in Hfrom.
      destruct (Hfrom call Hcall) as (_ & l & oris & m & _ & _ & Hm & _).
      injection Hsig as _ Ho. exists m. congruence. }
    destruct Hrot as [m Hm]. exists m. rewrite Hlast. split; [assumption|].
    rewrite Hfinal, Hkeys. unfold final_lattice.
    rewrite fold_left_app. simpl.
    fold (final_lattice items pre (fst entry) (Structure.lattice (h (fst entry)))).
    fold (final_lattice items post (fst entry)
            (phase_lattice items (fst entry)
               (final_lattice items pre (fst entry)
                  (Structure.lattice (h (fst entry)))) key)).
    rewrite final_lattice_untouched by exact Hfree.
    unfold phase_lattice at 1. rewrite Hg.
    destruct (Nat.eq_dec (fst entry) (fst entry)); [|contradiction].
    rewrite Hsplit, rev_app_distr. simpl. rewrite Hm.
    apply rotated_lattice_cell. apply cell_final_lattice.
Qed.

(** C7 (amended). Provided that placing a structure in a lattice forgets the
    lattice it was in before (as it does when the atoms keep their absolute
    positions and the arithmetic is exact), a second call with the same
    arguments, made on the structures as the first call left them, returns
    the same library as the first. *)
Theorem second_call_returns_same_library h lib w1 :
  (forall s L1 L2,
      Structure.placeInLattice (Structure.placeInLattice s L1) L2 =
      Structure.placeInLattice s L2) ->
  run (init_world h) = (inr lib, w1) ->
  exists w2, run w1 = (inr lib, w2).
Proof.
  intros Habsorb Hrun.
  rewrite get_diffraction_library_run in Hrun. rewrite get_diffraction_library_run.
  destruct (foldM _ _ _ (init_world h)) as [res0 w0] eqn:Hloop.
  assert (Hw : w0 = w1).
  { destruct res0; [congruence|].
    destruct (sl_indentifiers _); [|congruence].
    destruct (sl_structures _); congruence. }
  subst w0.
  assert (Hkeep : stores_agree (store (init_world h)) (store w1)).
  { eapply phase_loop_keeps; [exact Habsorb|exact Hloop]. }
  edestruct phase_loop_agree as (w2 & Hw2 & _); [exact Hkeep|exact Hloop|].
  rewrite Hw2.
  exists w2. destruct res0 as [e|lib0]; [discriminate|].
  destruct (sl_indentifiers _); [|discriminate].
  destruct (sl_structures _); [|discriminate].
  congruence.
Qed.

End Library.

(** ** Index pairs *)

Section Pairs.

Lemma combinations_one {A} (l : list A) :
  combinations l 1 = map (fun x => [x]) l.
Proof.
  induction l as [|x xs IH]; [reflexivity|].
  simpl. destruct xs as [|y ys]; simpl in *; rewrite ?IH; reflexivity.
Qed.

Lemma combinations_two {A} (l : list A) :
  combinations l 2 = map comb_of (all_pairs l).
Proof.
  induction l as [|x xs IH]; [reflexivity|].
  change (combinations (x :: xs) 2)
    with (map (cons x) (combinations xs 1) ++ combinations xs 2).
  rewrite combinations_one, IH. simpl.
  rewrite map_app, !map_map. reflexivity.
Qed.

Lemma all_pairs_length {A} (l : list A) :
  2 * length (all_pairs l) = length l * (length l - 1).
Proof.
  induction l as [|x xs IH]; [reflexivity|].
  simpl all_pairs. rewrite length_app, length_map. simpl length.
  destruct xs as [|y ys]; [reflexivity|]. simpl length in *. nia.
Qed.

Lemma all_pairs_count {A} (l : list A) :
  length (all_pairs l) = length l * (length l - 1) / 2.
Proof.
  rewrite <- all_pairs_length.
  rewrite Nat.mul_comm, Nat.div_mul; [reflexivity|discriminate].
Qed.

Lemma all_pairs_in (l : list nat) i j :
  StronglySorted lt l ->
  (In (i, j) (all_pairs l) <-> In i l /\ In j l /\ i < j).
Proof.
  induction 1 as [|x xs Hs IH Hall]; simpl.
  - tauto.
  - rewrite Forall_forall in Hall.
    rewrite in_app_iff, in_map_iff, IH. split.
    + intros [(y & Heq & Hy)|(Hi & Hj & Hlt)].
      * injection Heq as <- <-. auto.
      * auto.
    + intros ([<-|Hi] & [<-|Hj] & Hlt).
      * lia.
      * left. exists j. auto.
      * apply Hall in Hi. lia.
      * right. auto.
Qed.

Lemma all_pairs_fst_in {A} (l : list A) p : In p (all_pairs l) -> In (fst p) l.
Proof.
  induction l as [|x xs IH]; simpl; [tauto|].
  rewrite in_app_iff, in_map_iff.
  intros [(y & <- & _)|H]; [left; reflexivity|right; auto].
Qed.

Lemma StronglySorted_app {A} (R : A -> A -> Prop) l1 l2 :
  StronglySorted R l1 -> StronglySorted R l2 ->
  (forall x y, In x l1 -> In y l2 -> R x y) ->
  StronglySorted R (l1 ++ l2).
Proof.
  induction 1 as [|x xs Hs IH Hall]; intros H2 Hcross; [assumption|].
  simpl. constructor.
  - apply IH; [assumption|]. intros a b Ha. apply Hcross. right. assumption.
  - apply Forall_app. split; [assumption|].
    apply Forall_forall. intros y Hy. apply Hcross; [left; reflexivity|assumption].
Qed.

Lemma all_pairs_sorted (l : list nat) :
  StronglySorted lt l -> StronglySorted lex_lt (all_pairs l).
Proof.
  induction 1 as [|x xs Hs IH Hall]; simpl; [constructor|].
  rewrite Forall_forall in Hall.
  apply StronglySorted_app.
  - clear IH Hall. induction Hs as [|y ys Hys IHy Hally]; simpl; constructor.
    + assumption.
    + rewrite Forall_forall in *. intros p Hp. apply in_map_iff in Hp.
      destruct Hp as (z & <- & Hz). right. simpl. split; [reflexivity|auto].
  - assumption.
  - intros p q Hp Hq. apply in_map_iff in Hp. destruct Hp as (y & <- & _).
    left. simpl. apply Hall. apply all_pairs_fst_in. assumption.
Qed.

Lemma arange_sorted n : StronglySorted lt (arange n).
Proof.
  unfold arange. generalize 0.
  induction n as [|n IH]; intros start; simpl; constructor.
  - apply IH.
  - apply Forall_forall. intros x Hx. apply in_seq in Hx. lia.
Qed.

Lemma arange_pairs n i j : In (i, j) (all_pairs (arange n)) <-> i < j < n.
Proof.
  rewrite all_pairs_in by apply arange_sorted.
  unfold arange. rewrite !in_seq. lia.
Qed.

End Pairs.

(** ** The vector library *)

Section Vectors.
Context {N : Numerics} {E : Externals}.
Variable reciprocal_radius : F.

Lemma getitem_run {A} (l : list A) i w :
  getitem l i w =
  match nth_error l i with
  | Some x => (inr x, w)
  | None => (inl IndexError, w)
  end.
Proof. unfold getitem. destruct (nth_error l i); reflexivity. Qed.

Lemma pair_body_run indices coordinates distances acc (p : nat * nat) w :
  pair_body indices coordinates distances acc (comb_of p) w =
  match nth_error indices (fst p), nth_error indices (snd p),
        nth_error distances (fst p), nth_error distances (snd p),
        nth_error coordinates (fst p), nth_error coordinates (snd p) with
  | Some h1, Some h2, Some d1, Some d2, Some ci, Some cj =>
      (inr (acc ++ [ {| hkl1 := h1; hkl2 := h2; len1 := d1; len2 := d2;
                        angle := get_angle_cartesian ci cj |} ]), w)
  | _, _, _, _, _, _ => (inl IndexError, w)
  end.
Proof.
  unfold pair_body, comb_of, bind. rewrite !getitem_run. simpl.
  rewrite !getitem_run.
  destruct (nth_error indices (fst p)); [|reflexivity].
  rewrite !getitem_run.
  destruct (nth_error indices (snd p)); [|reflexivity].
  rewrite !getitem_run.
  destruct (nth_error distances (fst p)); [|reflexivity].
  rewrite !getitem_run.
  destruct (nth_error distances (snd p)); [|reflexivity].
  rewrite !getitem_run.
  destruct (nth_error coordinates (fst p)); [|reflexivity].
  rewrite !getitem_run.
  destruct (nth_error coordinates (snd p)); reflexivity.
Qed.

Lemma pair_loop_spec indices coordinates distances :
  forall pairs acc w res w',
  foldM (pair_body indices coordinates distances) (map comb_of pairs) acc w
  = (res, w') ->
  w' = w /\
  forall phase_vectors, res = inr phase_vectors ->
    exists records,
      phase_vectors = acc ++ records /\
      Forall2 (record_of_pair indices coordinates distances) pairs records.
Proof.
  induction pairs as [|p pairs IH]; intros acc w res w' Hrun.
  - simpl in Hrun. unfold ret in Hrun. injection Hrun as <- <-.
    split; [reflexivity|]. intros pv H. injection H as <-.
    exists []. rewrite app_nil_r. split; [reflexivity|constructor].
  - simpl in Hrun. unfold bind in Hrun. rewrite pair_body_run in Hrun.
    destruct (nth_error indices (fst p)) as [h1|] eqn:Hh1;
      [|injection Hrun as <- <-; split; [reflexivity|discriminate]].
    destruct (nth_error indices (snd p)) as [h2|] eqn:Hh2;
      [|injection Hrun as <- <-; split; [reflexivity|discriminate]].
    destruct (nth_error distances (fst p)) as [d1|] eqn:Hd1;
      [|injection Hrun as <- <-; split; [reflexivity|discriminate]].
    destruct (nth_error distances (snd p)) as [d2|] eqn:Hd2;
      [|injection Hrun as <- <-; split; [reflexivity|discriminate]].
    destruct (nth_error coordinates (fst p)) as [ci|] eqn:Hci;
      [|injection Hrun as <- <-; split; [reflexivity|discriminate]].
    destruct (nth_error coordinates (snd p)) as [cj|] eqn:Hcj;
      [|injection Hrun as <- <-; split; [reflexivity|discriminate]].
    apply IH in Hrun. destruct Hrun as [-> Hrecs].
    split; [reflexivity|]. intros pv Hres.
    destruct (Hrecs pv Hres) as (records & -> & Hall).
    eexists (_ :: records). rewrite <- app_assoc. split; [reflexivity|].
    constructor; [|assumption].
    unfold record_of_pair. simpl. repeat split; auto.
    exists ci, cj. auto.
Qed.

Lemma pair_loop_returns indices coordinates distances :
  length coordinates = length indices ->
  length distances = length indices ->
  forall pairs acc w,
  Forall (fun p : nat * nat => fst p < length indices /\ snd p < length indices)
    pairs ->
  exists phase_vectors,
    foldM (pair_body indices coordinates distances) (map comb_of pairs) acc w
    = (inr phase_vectors, w).
Proof.
  intros Hco Hdi. induction pairs as [|p pairs IH]; intros acc w Hall.
  - exists acc. reflexivity.
  - inversion Hall as [|? ? [Hi Hj] Hrest]; subst.
    simpl. unfold bind. rewrite pair_body_run.
    destruct (nth_error indices (fst p)) eqn:H1;
      [|apply nth_error_None in H1; lia].
    destruct (nth_error indices (snd p)) eqn:H2;
      [|apply nth_error_None in H2; lia].
    destruct (nth_error distances (fst p)) eqn:H3;
      [|apply nth_error_None in H3; lia].
    destruct (nth_error distances (snd p)) eqn:H4;
      [|apply nth_error_None in H4; lia].
    destruct (nth_error coordinates (fst p)) eqn:H5;
      [|apply nth_error_None in H5; lia].
    destruct (nth_error coordinates (snd p)) eqn:H6;
      [|apply nth_error_None in H6; lia].
    apply IH. assumption.
Qed.

Lemma vector_phase_body_run items vector_library key w :
  vector_phase_body items reciprocal_radius vector_library key w =
  match Dict.get PhaseId_eq_dec key items with
  | None => (inl KeyError, w)
  | Some entry =>
      let points := points_of (store w) reciprocal_radius entry in
      match foldM (pair_body (fst (fst points)) (snd (fst points)) (snd points))
              (combinations (arange (length (fst (fst points)))) 2) [] w with
      | (inl e, w') => (inl e, w')
      | (inr phase_vectors, w') =>
          (inr (Dict.set PhaseId_eq_dec key phase_vectors vector_library), w')
      end
  end.
Proof.
  unfold vector_phase_body, dict_getitem, bind at 1.
  destruct (Dict.get PhaseId_eq_dec key items) as [entry|]; [|reflexivity].
  unfold ret at 1. unfold bind at 1. unfold deref. unfold bind.
  cbv zeta. unfold points_of.
  destruct (foldM _ _ _ _) as [[e|pv] w']; reflexivity.
Qed.

Lemma keys_set_fresh {V} (d : Dict.dict PhaseId V) key v :
  ~ In key (Dict.keys d) ->
  Dict.keys (Dict.set PhaseId_eq_dec key v d) = Dict.keys d ++ [key].
Proof.
  induction d as [|[k0 v0] d IH]; simpl; intros Hnotin; [reflexivity|].
  destruct (PhaseId_eq_dec key k0) as [->|Hne]; [tauto|].
  simpl. f_equal. apply IH. tauto.
Qed.

Lemma vector_loop_spec items :
  forall keys vector_library w res w',
  foldM (vector_phase_body items reciprocal_radius) keys vector_library w
  = (res, w') ->
  w' = w /\
  forall lib, res = inr lib ->
    (forall key, In key keys ->
       exists entry records,
         Dict.get PhaseId_eq_dec key items = Some entry /\
         Dict.get PhaseId_eq_dec key lib = Some records /\
         records_of_points (points_of (store w) reciprocal_radius entry) records) /\
    (forall key, ~ In key keys ->
       Dict.get PhaseId_eq_dec key lib =
       Dict.get PhaseId_eq_dec key vector_library) /\
    (NoDup (Dict.keys vector_library ++ keys) ->
     Dict.keys lib = Dict.keys vector_library ++ keys).
Proof.
  induction keys as [|key keys IH]; intros vlib w res w' Hrun.
  - simpl in Hrun. unfold ret in Hrun. injection Hrun as <- <-.
    split; [reflexivity|]. intros lib H. injection H as <-.
    split; [intros key []|]. split; [reflexivity|].
    intros _. rewrite app_nil_r. reflexivity.
  - simpl in Hrun. unfold bind in Hrun. rewrite vector_phase_body_run in Hrun.
    destruct (Dict.get PhaseId_eq_dec key items) as [entry|] eqn:Hget;
      [|injection Hrun as <- <-; split; [reflexivity|discriminate]].
    cbv zeta in Hrun. rewrite combinations_two in Hrun.
    destruct (foldM (pair_body _ _ _) _ _ w) as [res1 w1] eqn:Hpairs.
    apply pair_loop_spec in Hpairs. destruct Hpairs as [-> Hrecs].
    destruct res1 as [e|pv];
      [injection Hrun as <- <-; split; [reflexivity|discriminate]|].
    destruct (Hrecs pv eq_refl) as (records & Hpv & Hall). simpl in Hpv. subst pv.
    apply IH in Hrun. destruct Hrun as [-> Hrest].
    split; [reflexivity|]. intros lib Hres.
    destruct (Hrest lib Hres) as (Hin & Hout & Hkeys).
    split; [|split].
    + intros k [<-|Hk]; [|apply Hin; assumption].
      destruct (in_dec PhaseId_eq_dec key keys) as [Hk|Hk]; [apply Hin; assumption|].
      exists entry, records. split; [assumption|]. split; [|exact Hall].
      rewrite (Hout key Hk). apply get_set_same.
    + intros k Hk. rewrite Hout by (intros H; apply Hk; right; assumption).
      apply get_set_other. intros ->. apply Hk. left. reflexivity.
    + intros Hnd.
      assert (Hfresh : ~ In key (Dict.keys vlib)).
      { intros Hk. apply NoDup_remove_2 in Hnd. apply Hnd.
        apply in_or_app. left. assumption. }
      rewrite Hkeys; rewrite keys_set_fresh by assumption;
        rewrite <- app_assoc; [reflexivity|exact Hnd].
Qed.

Lemma vector_loop_returns items keys w :
  (forall key, In key keys ->
     exists entry, Dict.get PhaseId_eq_dec key items = Some entry) ->
  (forall key entry,
     Dict.get PhaseId_eq_dec key items = Some entry ->
     let points := points_of (store w) reciprocal_radius entry in
     length (snd (fst points)) = length (fst (fst points)) /\
     length (snd points) = length (fst (fst points))) ->
  forall vector_library, exists lib,
    foldM (vector_phase_body items reciprocal_radius) keys vector_library w
    = (inr lib, w).
Proof.
  intros Hkeys Hpoints.
  induction keys as [|key keys IH]; intros vlib.
  - exists vlib. reflexivity.
  - simpl. unfold bind. rewrite vector_phase_body_run.
    destruct (Hkeys key (or_introl eq_refl)) as [entry Hget]. rewrite Hget.
    cbv zeta. rewrite combinations_two.
    destruct (Hpoints key entry Hget) as [Hco Hdi].
    edestruct pair_loop_returns as [pv Hpv]; [exact Hco|exact Hdi| |rewrite Hpv].
    + apply Forall_forall. intros [i j] Hin. apply arange_pairs in Hin. simpl. lia.
    + apply IH. intros k Hk. apply Hkeys. right. assumption.
Qed.

Lemma lex_lt_sorted_NoDup (l : list (nat * nat)) :
  StronglySorted lex_lt l -> NoDup l.
Proof.
  induction 1 as [|p l Hs IH Hall]; constructor; [|assumption].
  intros Hin. rewrite Forall_forall in Hall. apply Hall in Hin.
  unfold lex_lt in Hin. lia.
Qed.

Variable self : VectorLibraryGenerator.

Local Abbreviation items := (sl_items (struct_lib (vg_structures self))).
Local Abbreviation mapping := (struct_lib (vg_structures self)).

Lemma get_vector_library_run w :
  get_vector_library self reciprocal_radius w =
  match foldM (vector_phase_body items reciprocal_radius) (Dict.keys items) [] w with
  | (inl e, w') => (inl e, w')
  | (inr lib, w') =>
      match sl_indentifiers mapping with
      | None => (inl (AttributeError "indentifiers"), w')
      | Some ids =>
          match sl_structures mapping with
          | None => (inl (AttributeError "structures"), w')
          | Some structs =>
              (inr {| vl_items := lib; vl_identifiers := ids;
                      vl_structures := structs |}, w')
          end
      end
  end.
Proof.
  unfold get_vector_library, bind at 1.
  destruct (foldM _ _ _ _) as [[e|lib] w']; [reflexivity|].
  unfold getattr, bind, ret, raise.
  destruct (sl_indentifiers _); [|reflexivity].
  destruct (sl_structures _); reflexivity.
Qed.

Lemma get_vector_library_spec h lib w' :
  get_vector_library self reciprocal_radius (init_world h) = (inr lib, w') ->
  w' = init_world h /\
  sl_indentifiers mapping = Some (vl_identifiers lib) /\
  sl_structures mapping = Some (vl_structures lib) /\
  (forall key, In key (Dict.keys items) ->
     exists entry records,
       Dict.get PhaseId_eq_dec key items = Some entry /\
       Dict.get PhaseId_eq_dec key (vl_items lib) = Some records /\
       records_of_points (points_of h reciprocal_radius entry) records) /\
  (forall key, ~ In key (Dict.keys items) ->
     Dict.get PhaseId_eq_dec key (vl_items lib) = None) /\
  (NoDup (Dict.keys items) -> Dict.keys (vl_items lib) = Dict.keys items).
Proof.
  rewrite get_vector_library_run.
  destruct (foldM _ _ _ _) as [res0 w0] eqn:Hloop. intros Hrun.
  apply vector_loop_spec in Hloop. destruct Hloop as [-> Hspec].
  destruct res0 as [e|lib0]; [discriminate|].
  destruct (sl_indentifiers _) as [ids|]; [|discriminate].
  destruct (sl_structures _) as [structs|]; [|discriminate].
  injection Hrun as <- <-.
  destruct (Hspec lib0 eq_refl) as (Hin & Hout & Hkeys).
  simpl. repeat split; auto.
Qed.

(** C3. For a phase whose points in the sphere number [n], the returned
    vector library holds [n * (n - 1) / 2] records, one for each index pair
    [i < j < n] and in the lexicographic order of the pairs, the record of
    [(i, j)] being [(hkl_i, hkl_j, dist_i, dist_j, angle (coord_i, coord_j))];
    no pair is repeated and for [n < 2] there is no record.  When the helper
    returns three sequences of one length for every phase and the mapping
    carries its two attributes, the call does return a library. *)
Theorem vector_pairs_are_all_index_pairs h res w' :
  get_vector_library self reciprocal_radius (init_world h) = (res, w') ->
  ((forall key entry,
       Dict.get PhaseId_eq_dec key items = Some entry ->
       let points := points_of h reciprocal_radius entry in
       length (snd (fst points)) = length (fst (fst points)) /\
       length (snd points) = length (fst (fst points))) ->
   sl_indentifiers mapping <> None ->
   sl_structures mapping <> None ->
   exists lib, res = inr lib) /\
  (forall lib key entry,
     res = inr lib ->
     Dict.get PhaseId_eq_dec key items = Some entry ->
     let points := points_of h reciprocal_radius entry in
     let n := length (fst (fst points)) in
     exists pairs records,
       Dict.get PhaseId_eq_dec key (vl_items lib) = Some records /\
       length records = n * (n - 1) / 2 /\
       Forall2 (record_of_pair (fst (fst points)) (snd (fst points)) (snd points))
         pairs records /\
       (forall i j, In (i, j) pairs <-> i < j < n) /\
       StronglySorted lex_lt pairs /\
       NoDup pairs /\
       (n < 2 -> records = [])).
Proof.
  intros Hrun. split.
  - intros Hpoints Hids Hstructs.
    rewrite get_vector_library_run in Hrun.
    edestruct (vector_loop_returns items (Dict.keys items) (init_world h))
      as [lib0 Hlib0].
    + intros key Hin. apply get_in_keys with (K_eq_dec := PhaseId_eq_dec) in Hin.
      exact Hin.
    + exact Hpoints.
    + rewrite Hlib0 in Hrun.
      destruct (sl_indentifiers _); [|contradiction].
      destruct (sl_structures _); [|contradiction].
      eexists. injection Hrun as <- _. reflexivity.
  - intros lib key entry -> Hget points n.
    destruct (get_vector_library_spec h Hrun) as (_ & _ & _ & Hin & _).
    destruct (Hin key) as (entry' & records & Hget' & Hrecs & Hall).
    { apply get_in_keys with (K_eq_dec := PhaseId_eq_dec). eauto. }
    assert (entry' = entry) by congruence. subst entry'.
    unfold records_of_points in Hall. fold points in Hall. fold n in Hall.
    exists (all_pairs (arange n)), records.
    assert (Hlen : length records = n * (n - 1) / 2).
    { rewrite <- (Forall2_length Hall), all_pairs_count.
      unfold arange. rewrite length_seq. reflexivity. }
    split; [assumption|]. split; [assumption|]. split; [assumption|].
    split; [apply arange_pairs|].
    split; [apply all_pairs_sorted, arange_sorted|].
    split; [apply lex_lt_sorted_NoDup, all_pairs_sorted, arange_sorted|].
    intros Hn. apply length_zero_iff_nil. rewrite Hlen.
    destruct n as [|[|n]]; [reflexivity|reflexivity|lia].
Qed.

(** C9. The returned vector library has exactly the phase keys of the input
    mapping, in the same order, and a phase with fewer than two points in the
    sphere is present with an empty array. *)
Theorem vector_library_has_every_phase h lib w' :
  get_vector_library self reciprocal_radius (init_world h) = (inr lib, w') ->
  (forall key, In key (Dict.keys (vl_items lib)) <-> In key (Dict.keys items)) /\
  (NoDup (Dict.keys items) -> Dict.keys (vl_items lib) = Dict.keys items) /\
  (forall key entry,
     Dict.get PhaseId_eq_dec key items = Some entry ->
     length (fst (fst (points_of h reciprocal_radius entry))) < 2 ->
     Dict.get PhaseId_eq_dec key (vl_items lib) = Some []).
Proof.
  intros Hrun.
  destruct (get_vector_library_spec h Hrun) as (_ & _ & _ & Hin & Hout & Hkeys).
  split; [|split; [exact Hkeys|]].
  - intros key. split.
    + intros Hk. destruct (in_dec PhaseId_eq_dec key (Dict.keys items)) as [|Hno];
        [assumption|].
      apply get_in_keys with (K_eq_dec := PhaseId_eq_dec) in Hk.
      destruct Hk as [v Hv]. rewrite (Hout key Hno) in Hv. discriminate.
    + intros Hk. destruct (Hin key Hk) as (entry & records & _ & Hrecs & _).
      apply get_in_keys with (K_eq_dec := PhaseId_eq_dec). eauto.
  - intros key entry Hget Hn.
    destruct (Hin key) as (entry' & records & Hget' & Hrecs & Hall).
    { apply get_in_keys with (K_eq_dec := PhaseId_eq_dec). eauto. }
    assert (entry' = entry) by congruence. subst entry'.
    rewrite Hrecs. f_equal. apply length_zero_iff_nil.
    unfold records_of_points in Hall.
    rewrite <- (Forall2_length Hall), all_pairs_count.
    unfold arange. rewrite length_seq.
    destruct (length _) as [|[|n]]; [reflexivity|reflexivity|lia].
Qed.

End Vectors.

(** ** The generators on concrete libraries *)

(** C5 (the code at the failing inputs). On a library whose mapping is a
    plain dictionary both generators raise [AttributeError] after their
    loop; on a library whose mapping carries attributes of its own the
    returned library has the attributes of the mapping, not those of the
    input library. *)
Lemma attributes_are_read_from_the_mapping :
  fst (get_diffraction_library (E := Demo.externals) Demo.generator
         Demo.plain_library 2%Z 3%Z (72, 72)%Z true (init_world Demo.heap))
  = inl (AttributeError "indentifiers") /\
  fst (get_vector_library (E := Demo.externals)
         {| vg_structures := Demo.plain_library |} 3%Z (init_world Demo.heap))
  = inl (AttributeError "indentifiers") /\
  (exists lib,
      fst (get_diffraction_library (E := Demo.externals) Demo.generator
             Demo.relabelled_library 2%Z 3%Z (72, 72)%Z true
             (init_world Demo.heap)) = inr lib /\
      dl_identifiers lib = [7] /\
      identifiers Demo.relabelled_library = [1] /\
      dl_structures lib = [5] /\
      structures Demo.relabelled_library = [0]).
Proof.
  split; [vm_compute; reflexivity|].
  split; [vm_compute; reflexivity|].
  eexists. split; [vm_compute; reflexivity|].
  repeat split.
Qed.

Lemma demo_keys_distinct :
  NoDup (Dict.keys (sl_items (struct_lib Demo.library))).
Proof.
  repeat constructor; simpl; intuition discriminate.
Defined.

Lemma demo_returns_library : fst Demo.run_library = inr Demo.returned_library.
Proof. vm_compute. reflexivity. Defined.

Lemma demo_run_library :
  Demo.run_library = (inr Demo.returned_library, snd Demo.run_library).
Proof.
  exact (eq_trans (surjective_pairing Demo.run_library)
           (f_equal (fun r => (r, snd Demo.run_library)) demo_returns_library)).
Defined.

Lemma demo_returns_shared : fst Demo.run_shared = inr Demo.returned_shared.
Proof. vm_compute. reflexivity. Defined.

Lemma demo_run_shared :
  Demo.run_shared = (inr Demo.returned_shared, snd Demo.run_shared).
Proof.
  exact (eq_trans (surjective_pairing Demo.run_shared)
           (f_equal (fun r => (r, snd Demo.run_shared)) demo_returns_shared)).
Defined.

Lemma demo_returns_vectors : fst Demo.run_vectors = inr Demo.returned_vectors.
Proof. vm_compute. reflexivity. Defined.

Lemma demo_run_vectors :
  Demo.run_vectors = (inr Demo.returned_vectors, snd Demo.run_vectors).
Proof.
  exact (eq_trans (surjective_pairing Demo.run_vectors)
           (f_equal (fun r => (r, snd Demo.run_vectors)) demo_returns_vectors)).
Defined.

(** Witness of C1: on the example library the call returns, its calls are
    the planned ones, and phase 3, whose only simulation is empty, is
    absent. *)
Lemma retained_orientations_are_keys_witness :
  NoDup (Dict.keys (sl_items (struct_lib Demo.library))) /\
  Demo.run_library = (fst Demo.run_library, snd Demo.run_library) /\
  (forall lib, fst Demo.run_library = inr lib ->
     map signature (calls (snd Demo.run_library)) =
     planned (sl_items (struct_lib Demo.library))
       (Dict.keys (sl_items (struct_lib Demo.library)))).
Proof.
  split; [exact demo_keys_distinct|].
  split; [apply surjective_pairing|].
  intros lib Hlib.
  exact (proj1 (proj2 (@retained_orientations_are_keys
                         Demo.numerics Demo.externals
                         Demo.generator Demo.library 2%Z 3%Z (72, 72)%Z true
                         Demo.heap (fst Demo.run_library) (snd Demo.run_library)
                         demo_keys_distinct
                         (surjective_pairing Demo.run_library)) lib Hlib)).
Defined.

Lemma demo_phase_one :
  Dict.get (PhaseId_eq_dec (Numerics := Demo.numerics)) 1
    (dl_items Demo.returned_library) = Some Demo.phase_one.
Proof. vm_compute. reflexivity. Defined.

Lemma demo_record_one :
  Dict.get (Orientation_eq_dec (N := Demo.numerics)) [10; 0; 0]%Z Demo.phase_one
  = Some Demo.record_one.
Proof. vm_compute. reflexivity. Defined.

(** Witness of C2: the record of phase 1 for the orientation (10, 0, 0). *)
Lemma pixel_coords_are_rounded_shifts_witness :
  pixel_coords Demo.record_one =
    map (fun row : Z * Z * list Z =>
           ((fst (fst row) + 72)%Z, (snd (fst row) + 72)%Z))
        (calibrated_coordinates (Externals := Demo.externals) (Sim Demo.record_one)).
Proof.
  exact (proj1 (@pixel_coords_are_rounded_shifts
                  Demo.numerics Demo.externals
                  Demo.generator Demo.library 2%Z 3%Z (72, 72)%Z true
                  Demo.heap Demo.returned_library (snd Demo.run_library)
                  1 Demo.phase_one [10; 0; 0]%Z Demo.record_one
                  demo_keys_distinct demo_run_library
                  demo_phase_one demo_record_one)).
Defined.

(** Witness of C4: the same record. *)
Lemma pattern_norm_is_euclidean_norm_witness :
  pattern_norm Demo.record_one =
    Z.sqrt (np_dot (Numerics := Demo.numerics)
              (rec_intensities Demo.record_one) (rec_intensities Demo.record_one)).
Proof.
  exact (proj1 (@pattern_norm_is_euclidean_norm
                  Demo.numerics Demo.externals
                  Demo.generator Demo.library 2%Z 3%Z (72, 72)%Z true
                  Demo.heap Demo.returned_library (snd Demo.run_library)
                  1 Demo.phase_one [10; 0; 0]%Z Demo.record_one
                  demo_keys_distinct demo_run_library
                  demo_phase_one demo_record_one)).
Defined.


Lemma drift_returns_library : fst Drift.run_library = inr Drift.returned_library.
Proof. vm_compute. reflexivity. Defined.

Lemma drift_run_library :
  Drift.run_library = (inr Drift.returned_library, snd Drift.run_library).
Proof.
  exact (eq_trans (surjective_pairing Drift.run_library)
           (f_equal (fun r => (r, snd Drift.run_library)) drift_returns_library)).
Defined.


Lemma demo_failing_calls :
  calls (snd Demo.run_failing) = Demo.calls_before_failure ++ [Demo.failing_call].
Proof. vm_compute. reflexivity. Defined.

Lemma demo_failing_call :
  simulate (electron_diffraction_calculator Demo.generator) 3%Z true
    Demo.failing_call = inl (SimulationFailure 7).
Proof. vm_compute. reflexivity. Defined.

(** Witness of C8: the rotation 99 of the second phase makes the simulator
    raise, and the call ends with that exception. *)
Lemma simulator_failure_propagates_witness :
  fst Demo.run_failing = inl (SimulationFailure 7).
Proof.
  exact (proj1 (@simulator_failure_propagates
                  Demo.numerics Demo.externals
                  Demo.generator Demo.failing_library 2%Z 3%Z (72, 72)%Z true
                  Demo.heap (fst Demo.run_failing) (snd Demo.run_failing)
                  Demo.calls_before_failure Demo.failing_call []
                  (SimulationFailure 7)
                  (surjective_pairing Demo.run_failing)
                  demo_failing_calls demo_failing_call)).
Defined.

(** Counterexample to C10 as stated: phases 1 and 2 share the structure
    object 0; after the call the object holds the lattice of phase 2's
    orientation (20, 0, 0), not that of phase 1's last orientation
    (10, 0, 0). *)
Lemma shared_structure_holds_later_lattice :
  ~ holds_own_last_lattice (E := Demo.externals) Demo.generator
      Demo.shared_library 2%Z 3%Z (72, 72)%Z true Demo.heap.
Proof.
  intros Hclaim.
  destruct (Hclaim Demo.returned_shared (snd Demo.run_shared) demo_run_shared
              1 (0, [[10; 0; 0]%Z]) eq_refl) as (matrix & Hrot & Hlat).
  - discriminate.
  - vm_compute in Hrot. injection Hrot as <-.
    vm_compute in Hlat. discriminate.
Qed.

Lemma demo_structure_not_shared :
  forall key' entry',
    In key' [2; 3] ->
    Dict.get (PhaseId_eq_dec (Numerics := Demo.numerics)) key'
      (sl_items (struct_lib Demo.library)) = Some entry' ->
    fst entry' = fst Demo.entry_one -> snd entry' = [].
Proof.
  intros key' entry' [<-|[<-|[]]] Hget Hfst;
    vm_compute in Hget; injection Hget as <-; discriminate Hfst.
Defined.

(** Witness of C10 (amended): no later phase of the example library uses the
    structure of phase 1, which is left in the lattice of the phase's last
    orientation. *)
Lemma lattices_after_the_call_witness :
  exists matrix,
    rotation_of (last (snd Demo.entry_one) []) = Some matrix /\
    Structure.lattice (store (snd Demo.run_library) (fst Demo.entry_one)) =
      rotated_lattice (Structure.lattice (Demo.heap (fst Demo.entry_one))) matrix.
Proof.
  refine (proj2 (proj2 (proj2 (@lattices_after_the_call
                         Demo.numerics Demo.externals
                         Demo.generator Demo.library 2%Z 3%Z (72, 72)%Z true
                         Demo.heap Demo.returned_library (snd Demo.run_library)
                         demo_run_library)))
            [] 1 [2; 3] Demo.entry_one eq_refl eq_refl _
            demo_structure_not_shared).
  discriminate.
Defined.

Lemma demo_placement_absorbs :
  forall (s : Structure.t (N := Demo.numerics)) L1 L2,
    Structure.placeInLattice (E := Demo.externals)
      (Structure.placeInLattice (E := Demo.externals) s L1) L2 =
    Structure.placeInLattice (E := Demo.externals) s L2.
Proof.
  intros s L1 L2. unfold Structure.placeInLattice. simpl. f_equal. lia.
Defined.

(** Counterexample to C7 as stated: with a placement that rounds, the first
    call on the structure with coordinate 5 hands the simulator the
    coordinates 2, 1 and 1 and stores the reflection 1 under both
    orientations; the second call, made on the structure as the first call
    left it, hands it 1, 0 and 0 and stores the reflection 0.  The simulator
    is a function of the structure it is handed, and both calls read the same
    cell parameters. *)
Lemma second_call_differs_when_placement_rounds :
  ~ second_call_same (E := Drift.externals) Drift.generator Drift.library
      2%Z 3%Z (72, 72)%Z true Drift.heap.
Proof.
  intros Hclaim.
  destruct (Hclaim Drift.returned_library (snd Drift.run_library)
              drift_run_library) as [w2 Hw2].
  apply (f_equal fst) in Hw2. vm_compute in Hw2. discriminate.
Qed.

(** Witness of C7 (amended): the placement of the example world forgets the
    earlier lattice, and a second call on the example library, made on the
    structures as the first call left them, returns the same library. *)
Lemma second_call_returns_same_library_witness :
  exists w2,
    get_diffraction_library (E := Demo.externals) Demo.generator Demo.library
      2%Z 3%Z (72, 72)%Z true (snd Demo.run_library)
    = (inr Demo.returned_library, w2).
Proof.
  exact (@second_call_returns_same_library
           Demo.numerics Demo.externals
           Demo.generator Demo.library 2%Z 3%Z (72, 72)%Z true
           Demo.heap Demo.returned_library (snd Demo.run_library)
           demo_placement_absorbs demo_run_library).
Defined.

Lemma demo_points_parallel :
  forall key entry,
    Dict.get (PhaseId_eq_dec (Numerics := Demo.numerics)) key
      (sl_items (struct_lib (vg_structures Demo.vector_generator))) = Some entry ->
    let points := points_of (E := Demo.externals) Demo.heap 3%Z entry in
    length (snd (fst points)) = length (fst (fst points)) /\
    length (snd points) = length (fst (fst points)).
Proof.
  intros key entry _. split; reflexivity.
Defined.

(** Witness of C3: the helper of the example returns parallel sequences, so
    the call on the example library returns a vector library. *)
Lemma vector_pairs_are_all_index_pairs_witness :
  exists lib, fst Demo.run_vectors = inr lib.
Proof.
  refine (proj1 (@vector_pairs_are_all_index_pairs
                   Demo.numerics Demo.externals 3%Z Demo.vector_generator
                   Demo.heap (fst Demo.run_vectors) (snd Demo.run_vectors)
                   (surjective_pairing Demo.run_vectors))
            demo_points_parallel _ _); discriminate.
Defined.

(** Witness of C9: the returned example vector library has the phase keys of
    the example mapping, in their order. *)
Lemma vector_library_has_every_phase_witness :
  Dict.keys (vl_items Demo.returned_vectors) =
  Dict.keys (sl_items (struct_lib (vg_structures Demo.vector_generator))).
Proof.
  exact (proj1 (proj2 (@vector_library_has_every_phase
                         Demo.numerics Demo.externals 3%Z Demo.vector_generator
                         Demo.heap Demo.returned_vectors (snd Demo.run_vectors)
                         demo_run_vectors))
           demo_keys_distinct).
Defined.

(** ** Further properties of [get_diffraction_library] *)

Section Frame.
Context {N : Numerics} {E : Externals}.
Variable diffractor : Calculator.
Variables calibration reciprocal_radius : F.
Variable half_shape : F * F.
Variable with_direct_beam : bool.

Lemma rotation_of_none (o : Orientation) :
  rotation_of o = None <-> length o < 3.
Proof.
  unfold rotation_of.
  destruct o as [|x0 [|x1 [|x2 rest]]]; simpl; split; intros H;
    try reflexivity; try lia; discriminate.
Qed.

Lemma phase_loop_frame items r :
  forall keys lib w res w',
  (forall key entry, In key keys ->
     Dict.get PhaseId_eq_dec key items = Some entry ->
     fst entry <> r \/ snd entry = []) ->
  foldM (phase_body diffractor items calibration reciprocal_radius half_shape
           with_direct_beam) keys lib w = (res, w') ->
  store w' r = store w r.
Proof.
  induction keys as [|key keys IH]; intros lib w res w' Hfree Hrun.
  - simpl in Hrun. unfold ret in Hrun. injection Hrun as <- <-. reflexivity.
  - simpl in Hrun. unfold bind in Hrun. rewrite phase_body_run in Hrun.
    destruct (Dict.get PhaseId_eq_dec key items) as [entry|] eqn:Hget.
    2: { injection Hrun as <- <-. reflexivity. }
    cbv zeta in Hrun.
    destruct (foldM (orientation_body _ _ _ _ _ _ _ _ _ _ _ _ _) _ _ w)
      as [res1 w1] eqn:Hinner.
    assert (Hstep : store w1 r = store w r).
    { destruct (Hfree key entry (or_introl eq_refl) Hget) as [Hr|Hnil].
      - apply orientation_loop_spec in Hinner.
        destruct Hinner as (new & _ & _ & _ & _ & Hother & _).
        apply Hother. congruence.
      - rewrite Hnil in Hinner. simpl in Hinner. unfold ret in Hinner.
        injection Hinner as <- <-. reflexivity. }
    destruct res1 as [e|st1].
    + injection Hrun as <- <-. exact Hstep.
    + rewrite <- Hstep. eapply IH; [|exact Hrun].
      intros k e0 Hk. apply Hfree. right. assumption.
Qed.

End Frame.

Section Errors.
Context {N : Numerics} {E : Externals}.
Variable diffractor : Calculator.
Variables calibration reciprocal_radius : F.
Variable half_shape : F * F.
Variable with_direct_beam : bool.

Local Abbreviation simulate := (simulate diffractor reciprocal_radius with_direct_beam).
Local Abbreviation succeeded := (succeeded diffractor reciprocal_radius with_direct_beam).

Lemma orientation_loop_error key l a b c alpha beta gamma :
  forall oris st w e w',
  foldM (orientation_body diffractor key l a b c alpha beta gamma
           calibration reciprocal_radius half_shape with_direct_beam)
    oris st w = (inl e, w') ->
  (e = IndexError /\ exists o : Orientation, In o oris /\ length o < 3) \/
  (exists pre call, calls w' = calls w ++ pre ++ [call] /\ simulate call = inl e).
Proof.
  induction oris as [|o oris IH]; intros st w e w' Hrun.
  - discriminate.
  - simpl in Hrun. unfold bind in Hrun. rewrite orientation_body_run in Hrun.
    destruct (rotation_of o) as [m|] eqn:Hrot.
    2: { injection Hrun as <- <-. left. split; [reflexivity|].
         exists o. split; [left; reflexivity|].
         apply rotation_of_none. assumption. }
    cbv zeta in Hrun.
    destruct (diffractor _ _ _) as [e1|d] eqn:Hsim.
    + injection Hrun as <- <-. right.
      eexists [], _. split; [reflexivity|exact Hsim].
    + apply IH in Hrun.
      destruct Hrun as [(-> & o' & Hin & Hlen)|(pre & call & Hcalls & Hfail)].
      * left. split; [reflexivity|]. exists o'. split; [right; assumption|assumption].
      * right. simpl in Hcalls. rewrite <- app_assoc in Hcalls.
        eexists (_ :: pre), call. split; [exact Hcalls|exact Hfail].
Qed.

Lemma phase_loop_error items :
  forall keys lib w e w',
  foldM (phase_body diffractor items calibration reciprocal_radius half_shape
           with_direct_beam) keys lib w = (inl e, w') ->
  (e = KeyError /\ exists key, In key keys /\
                               Dict.get PhaseId_eq_dec key items = None) \/
  (e = IndexError /\
   exists key entry (o : Orientation),
     In key keys /\ Dict.get PhaseId_eq_dec key items = Some entry /\
     In o (snd entry) /\ length o < 3) \/
  (exists pre call, calls w' = calls w ++ pre ++ [call] /\ simulate call = inl e).
Proof.
  induction keys as [|key keys IH]; intros lib w e w' Hrun.
  - discriminate.
  - simpl in Hrun. unfold bind in Hrun. rewrite phase_body_run in Hrun.
    destruct (Dict.get PhaseId_eq_dec key items) as [entry|] eqn:Hget.
    2: { injection Hrun as <- <-. left. split; [reflexivity|].
         exists key. split; [left; reflexivity|assumption]. }
    cbv zeta in Hrun.
    destruct (foldM (orientation_body _ _ _ _ _ _ _ _ _ _ _ _ _) _ _ w)
      as [res1 w1] eqn:Hinner.
    destruct res1 as [e1|st1].
    + injection Hrun as <- <-.
      apply orientation_loop_error in Hinner.
      destruct Hinner as [(-> & o & Hin & Hlen)|Hcall].
      * right. left. split; [reflexivity|].
        exists key, entry, o. repeat split; auto. left. reflexivity.
      * right. right. exact Hcall.
    + apply orientation_loop_spec in Hinner.
      destruct Hinner as (new1 & Hcalls1 & _).
      apply IH in Hrun.
      destruct Hrun as [(-> & k & Hk & Hnone)
                       |[(-> & k & en & o & Hk & Hg & Hin & Hlen)
                        |(pre & call & Hcalls & Hfail)]].
      * left. split; [reflexivity|]. exists k. split; [right; assumption|assumption].
      * right. left. split; [reflexivity|].
        exists k, en, o. repeat split; auto. right. assumption.
      * right. right. exists (new1 ++ pre), call. split; [|exact Hfail].
        rewrite Hcalls, Hcalls1, <- !app_assoc. reflexivity.
Qed.

Lemma phase_loop_failed_call items :
  forall keys lib w res w' pre call e,
  foldM (phase_body diffractor items calibration reciprocal_radius half_shape
           with_direct_beam) keys lib w = (res, w') ->
  calls w' = calls w ++ pre ++ [call] ->
  simulate call = inl e ->
  exists entry,
    Dict.get PhaseId_eq_dec (call_key call) items = Some entry /\
    store w' (fst entry) = call_structure call.
Proof.
  induction keys as [|key keys IH]; intros lib w res w' pre call e Hrun Hcalls Hfail.
  - simpl in Hrun. unfold ret in Hrun. injection Hrun as <- <-.
    rewrite <- (app_nil_r (calls w)) in Hcalls at 1.
    apply app_inv_head in Hcalls. destruct pre; discriminate.
  - simpl in Hrun. unfold bind in Hrun. rewrite phase_body_run in Hrun.
    destruct (Dict.get PhaseId_eq_dec key items) as [entry|] eqn:Hget.
    2: { injection Hrun as <- <-.
         rewrite <- (app_nil_r (calls w)) in Hcalls at 1.
         apply app_inv_head in Hcalls. destruct pre; discriminate. }
    cbv zeta in Hrun.
    destruct (foldM (orientation_body _ _ _ _ _ _ _ _ _ _ _ _ _) _ _ w)
      as [res1 w1] eqn:Hinner.
    apply orientation_loop_spec in Hinner.
    destruct Hinner as (new1 & Hcalls1 & Hfrom1 & Hout1 & _ & _ & Hl & _).
    destruct res1 as [e1|st1].
    + injection Hrun as <- <-.
      rewrite Hcalls1 in Hcalls. apply app_inv_head in Hcalls. subst new1.
      exists entry. split.
      * apply Forall_app in Hfrom1. destruct Hfrom1 as [_ Hc].
        apply Forall_inv in Hc. destruct Hc as (Hk & _).
        rewrite Hk. assumption.
      * rewrite Hl, map_app. simpl. apply last_last.
    + apply outcome_succeeded in Hout1.
      pose proof Hrun as Hrest. apply phase_loop_spec in Hrest.
      destruct Hrest as (new2 & Hcalls2 & _).
      rewrite Hcalls2, Hcalls1, <- app_assoc in Hcalls.
      apply app_inv_head in Hcalls.
      destruct new2 as [|x new2 _] using rev_ind.
      * rewrite app_nil_r in Hcalls. subst new1.
        apply Forall_app in Hout1. destruct Hout1 as [_ Hc].
        apply Forall_inv in Hc. destruct Hc as [d Hd]. congruence.
      * rewrite app_assoc in Hcalls. apply app_inj_tail in Hcalls.
        destruct Hcalls as [_ ->].
        eapply IH; [exact Hrun|exact Hcalls2|exact Hfail].
Qed.

End Errors.

Section Order.
Context {N : Numerics} {E : Externals}.
Variable diffractor : Calculator.
Variables calibration reciprocal_radius : F.
Variable half_shape : F * F.
Variable with_direct_beam : bool.

Local Abbreviation retained := (retained diffractor reciprocal_radius with_direct_beam).
Local Abbreviation kept := (kept diffractor reciprocal_radius with_direct_beam).
Local Abbreviation kept_for := (kept_for diffractor reciprocal_radius with_direct_beam).
Local Abbreviation replay :=
  (replay diffractor calibration reciprocal_radius half_shape with_direct_beam).

Lemma keys_set_add {K V} (K_eq_dec : forall x y : K, {x = y} + {x <> y})
    (d : Dict.dict K V) k v :
  Dict.keys (Dict.set K_eq_dec k v d) = add_key K_eq_dec (Dict.keys d) k.
Proof.
  unfold add_key. induction d as [|[k0 v0] d IH]; simpl.
  - reflexivity.
  - destruct (K_eq_dec k k0) as [Heq|Hne]; simpl.
    + destruct (K_eq_dec k0 k) as [Hyes|Hno]; [reflexivity|congruence].
    + destruct (K_eq_dec k0 k) as [Heq|Hne2]; [congruence|].
      rewrite IH.
      destruct (in_dec K_eq_dec k (Dict.keys d)); reflexivity.
Qed.

Lemma first_occurrences_snoc {K} (K_eq_dec : forall x y : K, {x = y} + {x <> y})
    (l : list K) k :
  first_occurrences K_eq_dec (l ++ [k]) =
  add_key K_eq_dec (first_occurrences K_eq_dec l) k.
Proof. unfold first_occurrences. rewrite fold_left_app. reflexivity. Qed.

Lemma replay_key_order trace :
  Dict.keys (replay trace) =
    first_occurrences PhaseId_eq_dec (map call_key (filter kept trace)) /\
  forall key,
    Dict.keys (match Dict.get PhaseId_eq_dec key (replay trace) with
               | Some phase => phase
               | None => []
               end) =
    first_occurrences Orientation_eq_dec
      (map call_orientation (filter (kept_for key) trace)).
Proof.
  induction trace as [|c trace [IHk IHp]] using rev_ind.
  - split; [reflexivity|]. intros key. reflexivity.
  - rewrite replay_snoc, !filter_app.
    assert (Hk : filter kept [c] = match retained c with Some _ => [c] | None => [] end).
    { simpl. unfold kept. destruct (retained c); reflexivity. }
    assert (Hkf : forall key,
      filter (kept_for key) [c] =
      match retained c with
      | Some _ => if PhaseId_eq_dec (call_key c) key then [c] else []
      | None => []
      end).
    { intros key. simpl. unfold kept_for, kept.
      destruct (retained c); simpl; [|reflexivity].
      destruct (PhaseId_eq_dec (call_key c) key); reflexivity. }
    split.
    + rewrite Hk. unfold replay_call. destruct (retained c) as [d|].
      * rewrite map_app. change (map call_key [c]) with [call_key c].
        rewrite first_occurrences_snoc, keys_set_add, IHk. reflexivity.
      * rewrite app_nil_r. exact IHk.
    + intros key. rewrite filter_app, Hkf, replay_call_get.
      destruct (retained c) as [d|] eqn:Hret.
      * destruct (PhaseId_eq_dec key (call_key c)) as [->|Hne].
        -- destruct (PhaseId_eq_dec (call_key c) (call_key c)); [|contradiction].
           rewrite map_app.
           change (map call_orientation [c]) with [call_orientation c].
           rewrite first_occurrences_snoc, keys_set_add, IHp.
           reflexivity.
        -- destruct (PhaseId_eq_dec (call_key c) key); [congruence|].
           rewrite app_nil_r. apply IHp.
      * rewrite app_nil_r. apply IHp.
Qed.

End Order.

Section LibraryMore.
Context {N : Numerics} {E : Externals}.
Variable self : DiffractionLibraryGenerator.
Variable structure_library : StructureLibrary.
Variables calibration reciprocal_radius : F.
Variable half_shape : F * F.
Variable with_direct_beam : bool.

Local Abbreviation diffractor := (electron_diffraction_calculator self).
Local Abbreviation items := (sl_items (struct_lib structure_library)).
Local Abbreviation mapping := (struct_lib structure_library).
Local Abbreviation simulate := (simulate diffractor reciprocal_radius with_direct_beam).
Local Abbreviation retained := (retained diffractor reciprocal_radius with_direct_beam).
Local Abbreviation replay :=
  (replay diffractor calibration reciprocal_radius half_shape with_direct_beam).
Local Abbreviation succeeded := (succeeded diffractor reciprocal_radius with_direct_beam).
Local Abbreviation kept := (kept diffractor reciprocal_radius with_direct_beam).
Local Abbreviation kept_for := (kept_for diffractor reciprocal_radius with_direct_beam).
Local Abbreviation run :=
  (get_diffraction_library self structure_library calibration reciprocal_radius
     half_shape with_direct_beam).

(** The exceptions of a run in which lines 115-118 raise nothing. *)
Lemma get_diffraction_library_error h e w' :
  run (init_world h) = (inl e, w') ->
  (exists pre call, calls w' = pre ++ [call] /\ simulate call = inl e) \/
  (e = IndexError /\
   exists key entry (o : Orientation),
     Dict.get PhaseId_eq_dec key items = Some entry /\
     In o (snd entry) /\ length o < 3) \/
  (e = AttributeError "indentifiers" /\ sl_indentifiers mapping = None /\
   Forall succeeded (calls w') /\
   map signature (calls w') = planned items (Dict.keys items)) \/
  (e = AttributeError "structures" /\ sl_structures mapping = None /\
   sl_indentifiers mapping <> None /\
   Forall succeeded (calls w') /\
   map signature (calls w') = planned items (Dict.keys items)).
Proof.
  rewrite get_diffraction_library_run.
  destruct (foldM _ _ _ _) as [[e0|lib0] w0] eqn:Hloop; intros Hrun.
  - injection Hrun as <- <-. apply phase_loop_error in Hloop.
    destruct Hloop as [(_ & key & Hin & Hnone)
                      |[(-> & key & entry & o & _ & Hg & Ho & Hlen)|Hcall]].
    + apply get_in_keys with (K_eq_dec := PhaseId_eq_dec) in Hin.
      destruct Hin as [v Hv]. congruence.
    + right. left. split; [reflexivity|]. exists key, entry, o. auto.
    + left. exact Hcall.
  - apply phase_loop_spec in Hloop.
    destruct Hloop as (new & Hcalls & _ & Hout & (rest & Hplan & Hdone) & _).
    simpl in Hcalls.
    apply outcome_succeeded in Hout.
    rewrite (Hdone lib0 eq_refl), app_nil_r in Hplan.
    destruct (sl_indentifiers mapping) as [ids|] eqn:Hids.
    + destruct (sl_structures mapping) as [structs|] eqn:Hstructs; [discriminate|].
      injection Hrun as <- <-. right. right. right.
      rewrite Hcalls. repeat split; auto. discriminate.
    + injection Hrun as <- <-. right. right. left.
      rewrite Hcalls. repeat split; auto.
Qed.

(** When lines 115-118 raise nothing, the call returns a library exactly
    when every orientation of every phase has at least three angles, every
    simulator call of the run succeeded and the mapping carries both
    attributes. *)
Lemma get_diffraction_library_returned h res w' :
  run (init_world h) = (res, w') ->
  ((exists lib, res = inr lib) <->
   (forall key entry,
       Dict.get PhaseId_eq_dec key items = Some entry ->
       Forall (fun o : Orientation => 3 <= length o) (snd entry)) /\
   Forall succeeded (calls w') /\
   sl_indentifiers mapping <> None /\
   sl_structures mapping <> None).
Proof.
  intros Hrun. split.
  - intros [lib ->].
    pose proof Hrun as Hspec. apply get_diffraction_library_spec in Hspec.
  destruct Hspec as (Hfrom & Hout & (rest & Hplan & Hdone) & _ & Hlib).
    destruct (Hlib lib eq_refl) as (_ & Hids & Hstructs & _).
    rewrite (Hdone lib eq_refl), app_nil_r in Hplan.
    split; [|split; [eapply outcome_succeeded; exact Hout|split; congruence]].
    intros key entry Hget. apply Forall_forall. intros o Ho.
    assert (Hin : In (key, o) (planned items (Dict.keys items))).
    { apply in_planned with (entry := entry); [|assumption|assumption].
      apply get_in_keys with (K_eq_dec := PhaseId_eq_dec). eauto. }
    rewrite Hplan in Hin. apply in_map_iff in Hin.
    destruct Hin as (call & Hsig & Hcall).
    rewrite Forall_forall in Hfrom.
    destruct (Hfrom call Hcall) as (_ & l & oris & m & _ & _ & Hm & _).
    injection Hsig as _ Hko. rewrite Hko in Hm.
    destruct (Nat.le_gt_cases 3 (length o)) as [|Hlt]; [assumption|].
    apply rotation_of_none in Hlt. congruence.
  - intros (Hwf & Hall & Hids & Hstructs).
    destruct res as [e|lib]; [|eauto]. exfalso.
    pose proof Hrun as Herr. apply get_diffraction_library_error in Herr.
    destruct Herr
      as [(pre & call & Hcalls & Hfail)
         |[(_ & key & entry & o & Hg & Ho & Hlen)
          |[(_ & Hnone & _)|(_ & Hnone & _)]]].
    + rewrite Hcalls in Hall. apply Forall_app in Hall. destruct Hall as [_ Hc].
      apply Forall_inv in Hc. destruct Hc as [d Hd]. congruence.
    + specialize (Hwf key entry Hg). rewrite Forall_forall in Hwf.
      specialize (Hwf o Ho). lia.
    + contradiction.
    + contradiction.
Qed.

(** X3. When the last simulator call raised, the structure of its phase is
    left as it was handed to the simulator, in the lattice rotated for the
    failing orientation: nothing is restored. *)
Theorem failed_call_leaves_structure_rotated h res w' pre call e :
  run (init_world h) = (res, w') ->
  calls w' = pre ++ [call] ->
  simulate call = inl e ->
  exists entry matrix,
    Dict.get PhaseId_eq_dec (call_key call) items = Some entry /\
    store w' (fst entry) = call_structure call /\
    rotation_of (call_orientation call) = Some matrix /\
    Structure.lattice (store w' (fst entry)) =
      rotated_lattice (Structure.lattice (h (fst entry))) matrix.
Proof.
  intros Hrun Hcalls Hfail.
  pose proof Hrun as Hspec. apply get_diffraction_library_spec in Hspec.
  destruct Hspec as (Hfrom & _).
  rewrite get_diffraction_library_run in Hrun.
  destruct (foldM _ _ _ _) as [res0 w0] eqn:Hloop.
  assert (Hw : w0 = w').
  { destruct res0; [congruence|].
    destruct (sl_indentifiers _); [|congruence].
    destruct (sl_structures _); congruence. }
  subst w0.
  edestruct phase_loop_failed_call as (entry & Hget & Hstore);
    [exact Hloop|simpl; exact Hcalls|exact Hfail|].
  rewrite Forall_forall in Hfrom.
  destruct (Hfrom call) as (_ & l & oris & m & Hg & _ & Hm & Hlat).
  { rewrite Hcalls. apply in_or_app. right. left. reflexivity. }
  exists entry, m. rewrite Hstore.
  assert (entry = (l, oris)) by congruence. subst entry.
  repeat split; auto.
Qed.

(** X4. Whatever the outcome, library or exception, the call changes the
    cell parameters of no structure, and a structure that no phase with a
    non-empty orientation list refers to is left exactly as it was. *)
Theorem other_structures_untouched h res w' :
  run (init_world h) = (res, w') ->
  (forall r, cell (Structure.lattice (store w' r)) =
             cell (Structure.lattice (h r))) /\
  (forall r,
      (forall key entry,
          Dict.get PhaseId_eq_dec key items = Some entry ->
          fst entry <> r \/ snd entry = []) ->
      store w' r = h r).
Proof.
  intros Hrun. split.
  - pose proof Hrun as Hspec. apply get_diffraction_library_spec in Hspec.
    apply Hspec.
  - intros r Hfree.
    rewrite get_diffraction_library_run in Hrun.
    destruct (foldM _ _ _ _) as [res0 w0] eqn:Hloop.
    assert (Hw : w0 = w').
    { destruct res0; [congruence|].
      destruct (sl_indentifiers _); [|congruence].
      destruct (sl_structures _); congruence. }
    subst w0.
    eapply phase_loop_frame in Hloop; [exact Hloop|].
    intros key entry _. apply Hfree.
Qed.

(** X5. The outcome of the call, library or exception, depends on the
    structures only through their cell parameters and through what they
    become once placed in a lattice: stores that agree on these give the same
    outcome. *)
Theorem outcome_depends_on_placement h1 h2 :
  stores_agree h1 h2 ->
  fst (run (init_world h1)) = fst (run (init_world h2)).
Proof.
  intros Hagree. rewrite !get_diffraction_library_run.
  destruct (foldM _ _ _ (init_world h1)) as [res0 w0] eqn:Hloop.
  edestruct phase_loop_agree with (v := init_world h2) as (v0 & Hv0 & _);
    [|exact Hloop|].
  - exact Hagree.
  - rewrite Hv0. destruct res0 as [e|lib]; [reflexivity|].
    destruct (sl_indentifiers _); [|reflexivity].
    destruct (sl_structures _); reflexivity.
Qed.

(** X6. The keys of the returned library are the phases with a stored
    simulation, in the order in which each first had one stored, and the
    keys of a phase's dictionary are its stored orientations in the order in
    which each was first stored. *)
Theorem keys_in_order_of_first_storage h lib w' :
  NoDup (Dict.keys items) ->
  run (init_world h) = (inr lib, w') ->
  Dict.keys (dl_items lib) =
    first_occurrences PhaseId_eq_dec (map call_key (filter kept (calls w'))) /\
  forall key phase,
    Dict.get PhaseId_eq_dec key (dl_items lib) = Some phase ->
    Dict.keys phase =
      first_occurrences Orientation_eq_dec
        (map call_orientation (filter (kept_for key) (calls w'))).
Proof.
  intros Hnd Hrun.
  pose proof Hrun as Hspec. apply get_diffraction_library_spec in Hspec.
  destruct Hspec as (_ & _ & _ & _ & Hlib).
  destruct (Hlib lib eq_refl) as (_ & _ & _ & Hreplay).
  rewrite (Hreplay Hnd).
  destruct (replay_key_order (E := E) diffractor calibration reciprocal_radius
              half_shape with_direct_beam (calls w')) as [Hk Hp].
  split; [exact Hk|].
  intros key phase Hg. specialize (Hp key). rewrite Hg in Hp. exact Hp.
Qed.

(** X7. The returned library has no more phases than the input and a phase's
    dictionary no more entries than the phase has orientations: its phase
    keys are keys of the input, and the orientation keys of a phase are
    orientations of that phase's list. *)
Theorem library_within_input h lib w' :
  NoDup (Dict.keys items) ->
  run (init_world h) = (inr lib, w') ->
  (forall key, In key (Dict.keys (dl_items lib)) -> In key (Dict.keys items)) /\
  length (dl_items lib) <= length items /\
  (forall key phase entry,
      Dict.get PhaseId_eq_dec key (dl_items lib) = Some phase ->
      Dict.get PhaseId_eq_dec key items = Some entry ->
      (forall o, In o (Dict.keys phase) -> In o (snd entry)) /\
      length phase <= length (snd entry)).
Proof.
  intros Hnd Hrun.
  pose proof Hrun as Hspec. apply get_diffraction_library_spec in Hspec.
  destruct Hspec as (Hfrom & _ & _ & _ & Hlib).
  destruct (Hlib lib eq_refl) as (_ & _ & _ & Hreplay).
  specialize (Hreplay Hnd). rewrite Forall_forall in Hfrom.
  destruct (replay_unique diffractor calibration reciprocal_radius half_shape
              with_direct_beam (calls w')) as [Huk Hup].
  rewrite <- Hreplay in Huk, Hup.
  assert (Hsound : forall key phase o,
    Dict.get PhaseId_eq_dec key (dl_items lib) = Some phase ->
    In o (Dict.keys phase) ->
    exists call, In call (calls w') /\ call_key call = key /\
                 call_orientation call = o).
  { intros key phase o Hg Ho.
    apply get_in_keys with (K_eq_dec := Orientation_eq_dec) in Ho.
    destruct Ho as [record Hrec]. rewrite Hreplay in Hg.
    edestruct replay_sound as (call & data & Hc & Hk & Hco & _);
      [exact Hg|exact Hrec|].
    exists call. auto. }
  assert (Hsub : forall key,
    In key (Dict.keys (dl_items lib)) -> In key (Dict.keys items)).
  { intros key Hin.
    apply get_in_keys with (K_eq_dec := PhaseId_eq_dec) in Hin.
    destruct Hin as [phase Hg].
    destruct (Hup key phase Hg) as [_ Hne].
    destruct phase as [|[o record] phase]; [contradiction|].
    destruct (Hsound key _ o Hg (or_introl eq_refl)) as (call & Hc & <- & _).
    apply (Hfrom call Hc). }
  split; [exact Hsub|]. split.
  - rewrite <- (length_map fst (dl_items lib)), <- (length_map fst items).
    apply NoDup_incl_length; [exact Huk|exact Hsub].
  - intros key phase entry Hg Hget.
    assert (Hin : forall o, In o (Dict.keys phase) -> In o (snd entry)).
    { intros o Ho.
      destruct (Hsound key phase o Hg Ho) as (call & Hc & Hk & Hco).
      destruct (Hfrom call Hc) as (_ & l & oris & m & Hgc & Hoc & _).
      rewrite Hk, Hget in Hgc. injection Hgc as ->.
      rewrite <- Hco. exact Hoc. }
    split; [exact Hin|].
    rewrite <- (length_map fst phase).
    apply NoDup_incl_length; [apply (Hup key phase Hg)|exact Hin].
Qed.

(** X10. Provided that placing a structure in a lattice forgets the lattice
    it was in before, repeating the call on the structures as a first call
    left them reproduces the outcome of that call, a raised exception as well
    as a library. *)
Theorem repeated_call_reproduces_outcome h res w1 :
  (forall s L1 L2,
      Structure.placeInLattice (Structure.placeInLattice s L1) L2 =
      Structure.placeInLattice s L2) ->
  run (init_world h) = (res, w1) ->
  fst (run w1) = res.
Proof.
  intros Habsorb Hrun.
  rewrite get_diffraction_library_run in Hrun. rewrite get_diffraction_library_run.
  destruct (foldM _ _ _ (init_world h)) as [res0 w0] eqn:Hloop.
  assert (Hw : w0 = w1).
  { destruct res0; [congruence|].
    destruct (sl_indentifiers _); [|congruence].
    destruct (sl_structures _); congruence. }
  subst w0.
  assert (Hkeep : stores_agree (store (init_world h)) (store w1)).
  { eapply phase_loop_keeps; [exact Habsorb|exact Hloop]. }
  edestruct phase_loop_agree with (v := w1) as (w2 & Hw2 & _);
    [exact Hkeep|exact Hloop|].
  rewrite Hw2. destruct res0 as [e|lib0].
  - injection Hrun as <-. reflexivity.
  - destruct (sl_indentifiers _); [|injection Hrun as <-; reflexivity].
    destruct (sl_structures _); injection Hrun as <-; reflexivity.
Qed.

End LibraryMore.

(** ** The exceptions of lines 115-118

    The run of [get_diffraction_library_checked] is the run of
    [get_diffraction_library] for the calculator that raises what lines
    115-118 raise on its simulation. *)
Section LibraryChecked.
Context {N : Numerics} {E : Externals}.
Variable checks : SimulationChecks.
Variable self : DiffractionLibraryGenerator.
Variable structure_library : StructureLibrary.
Variables calibration reciprocal_radius : F.
Variable half_shape : F * F.
Variable with_direct_beam : bool.

Local Abbreviation diffractor := (electron_diffraction_calculator self).
Local Abbreviation guarded :=
  (checked_calculator checks diffractor calibration half_shape).
Local Abbreviation guarded_self := {| electron_diffraction_calculator := guarded |}.
Local Abbreviation items := (sl_items (struct_lib structure_library)).
Local Abbreviation mapping := (struct_lib structure_library).
Local Abbreviation guarded_simulate :=
  (simulate guarded reciprocal_radius with_direct_beam).
Local Abbreviation guarded_succeeded :=
  (succeeded guarded reciprocal_radius with_direct_beam).
Local Abbreviation simulate := (simulate diffractor reciprocal_radius with_direct_beam).
Local Abbreviation succeeded := (succeeded diffractor reciprocal_radius with_direct_beam).
Local Abbreviation passes :=
  (passes_checks checks diffractor calibration reciprocal_radius half_shape
     with_direct_beam).
Local Abbreviation run :=
  (get_diffraction_library self structure_library calibration reciprocal_radius
     half_shape with_direct_beam).
Local Abbreviation run_checked :=
  (get_diffraction_library_checked checks self structure_library calibration
     reciprocal_radius half_shape with_direct_beam).

(** Loops with bodies that run alike run alike. *)
Lemma foldM_ext {S A} (body1 body2 : S -> A -> M S) :
  (forall s x w, body1 s x w = body2 s x w) ->
  forall l s w, foldM body1 l s w = foldM body2 l s w.
Proof.
  intros Hbody l. induction l as [|x xs IH]; intros s w; simpl.
  - reflexivity.
  - unfold bind. rewrite Hbody.
    destruct (body2 s x w) as [[e|s'] w']; [reflexivity|apply IH].
Qed.

(** One iteration with the checks is one iteration without them for the
    calculator that raises what the checks raise. *)
Lemma orientation_body_checked_run key structure a b c alpha beta gamma st o w :
  orientation_body_checked checks diffractor key structure a b c alpha beta gamma
    calibration reciprocal_radius half_shape with_direct_beam st o w =
  orientation_body guarded key structure a b c alpha beta gamma
    calibration reciprocal_radius half_shape with_direct_beam st o w.
Proof.
  unfold orientation_body_checked, orientation_body.
  destruct (map np_deg2rad o) as [|o0 [|o1 [|o2 rest]]]; try reflexivity.
  cbn -[Nat.ltb].
  unfold bind, placeInLattice, calculate_ed_data, checked_calculator,
    raised_after, assign_calibration, pixel_coordinates_of.
  cbn -[Nat.ltb].
  destruct (diffractor _ _ _) as [e|data]; [reflexivity|].
  cbn -[Nat.ltb].
  destruct (calibration_error checks data calibration) as [e|]; [reflexivity|].
  cbn -[Nat.ltb].
  destruct (coordinates_error checks _ half_shape) as [e|]; [reflexivity|].
  cbn -[Nat.ltb].
  destruct (0 <? length (DiffractionSimulation.intensities data)); reflexivity.
Qed.

Lemma phase_body_checked_run lib key w :
  phase_body_checked checks diffractor items calibration reciprocal_radius
    half_shape with_direct_beam lib key w =
  phase_body guarded items calibration reciprocal_radius half_shape
    with_direct_beam lib key w.
Proof.
  unfold phase_body_checked, phase_body, bind, dict_getitem.
  destruct (Dict.get PhaseId_eq_dec key items) as [entry|]; [|reflexivity].
  simpl.
  rewrite (foldM_ext _ _ (orientation_body_checked_run _ _ _ _ _ _ _ _)).
  reflexivity.
Qed.

Lemma get_diffraction_library_checked_run w :
  run_checked w =
  get_diffraction_library guarded_self structure_library calibration
    reciprocal_radius half_shape with_direct_beam w.
Proof.
  unfold get_diffraction_library_checked, get_diffraction_library, bind. simpl.
  rewrite (foldM_ext _ _ phase_body_checked_run). reflexivity.
Qed.

Lemma simulate_checked call :
  guarded_simulate call =
  match simulate call with
  | inl e => inl e
  | inr data =>
      match raised_after checks calibration half_shape data with
      | Some e => inl e
      | None => inr data
      end
  end.
Proof. reflexivity. Qed.

Lemma succeeded_checked call :
  guarded_succeeded call <->
  succeeded call /\ passes call.
Proof.
  unfold succeeded, passes_checks. rewrite simulate_checked.
  destruct (simulate call) as [e|data].
  - split; [intros [d Hd]; discriminate|intros [[d Hd] _]; discriminate].
  - destruct (raised_after checks calibration half_shape data) as [e|] eqn:Hr.
    + split; [intros [d Hd]; discriminate|].
      intros [_ Hp]. specialize (Hp data eq_refl). congruence.
    + split.
      * intros _. split; [eauto|]. intros d Hd. injection Hd as <-. assumption.
      * intros _. eauto.
Qed.

Lemma all_succeeded_checked trace :
  Forall (guarded_succeeded) trace <->
  Forall succeeded trace /\ Forall passes trace.
Proof.
  induction trace as [|c trace IH].
  - split; [intros _; split; constructor|intros _; constructor].
  - split.
    + intros H. apply Forall_cons_iff in H. destruct H as [Hc Ht].
      apply succeeded_checked in Hc. apply IH in Ht.
      destruct Hc, Ht. split; constructor; assumption.
    + intros [Hs Hp].
      apply Forall_cons_iff in Hs. apply Forall_cons_iff in Hp.
      destruct Hs as [Hs1 Hs2], Hp as [Hp1 Hp2].
      constructor; [apply succeeded_checked; split; assumption|].
      apply IH. split; assumption.
Qed.


Lemma foldM_returns {S A} (body1 body2 : S -> A -> M S) :
  (forall s x w s' w', body1 s x w = (inr s', w') -> body2 s x w = (inr s', w')) ->
  forall l s w s' w',
    foldM body1 l s w = (inr s', w') -> foldM body2 l s w = (inr s', w').
Proof.
  intros Hbody l. induction l as [|x xs IH]; intros s w s' w'; simpl.
  - trivial.
  - unfold bind. destruct (body1 s x w) as [[e|s1] w1] eqn:H1; [discriminate|].
    rewrite (Hbody _ _ _ _ _ H1). apply IH.
Qed.

Lemma orientation_body_checked_returns
    key structure a b c alpha beta gamma st o w st' w' :
  orientation_body_checked checks diffractor key structure a b c alpha beta gamma
    calibration reciprocal_radius half_shape with_direct_beam st o w
  = (inr st', w') ->
  orientation_body diffractor key structure a b c alpha beta gamma
    calibration reciprocal_radius half_shape with_direct_beam st o w
  = (inr st', w').
Proof.
  rewrite orientation_body_checked_run, !orientation_body_run.
  destruct (rotation_of o) as [matrix|]; [|trivial].
  cbn -[Nat.ltb]. unfold checked_calculator.
  destruct (diffractor _ _ _) as [e|data]; [trivial|].
  destruct (raised_after checks calibration half_shape data); [discriminate|].
  trivial.
Qed.

Lemma phase_body_checked_returns lib key w lib' w' :
  phase_body_checked checks diffractor items calibration reciprocal_radius
    half_shape with_direct_beam lib key w = (inr lib', w') ->
  phase_body diffractor items calibration reciprocal_radius half_shape
    with_direct_beam lib key w = (inr lib', w').
Proof.
  unfold phase_body_checked, phase_body, bind, dict_getitem.
  destruct (Dict.get PhaseId_eq_dec key items) as [entry|]; [|trivial].
  simpl.
  destruct (foldM (orientation_body_checked _ _ _ _ _ _ _ _ _ _ _ _ _ _) _ _ _)
    as [[e|st] w1] eqn:Hloop; [discriminate|].
  rewrite (foldM_returns _ _
             (orientation_body_checked_returns _ _ _ _ _ _ _ _) _ _ _ Hloop).
  trivial.
Qed.

(** Whenever the run with the checks returns a library, lines 115-118 have
    raised nothing and [get_diffraction_library] returns the same library,
    leaving the same world. *)
Lemma checked_library_is_library w lib w' :
  run_checked w = (inr lib, w') -> run w = (inr lib, w').
Proof.
  unfold get_diffraction_library_checked, get_diffraction_library, bind. simpl.
  destruct (foldM (phase_body_checked _ _ _ _ _ _ _) _ _ _)
    as [[e|items'] w1] eqn:Hloop; [discriminate|].
  rewrite (foldM_returns _ _ phase_body_checked_returns _ _ _ Hloop).
  trivial.
Qed.

(** X1. Every exception of the call has one of six causes: the last
    simulator call raised it; the assignment of the calibration to the
    simulation of the last call raised it (line 115); the array expression of
    lines 117-118 raised it on that simulation; an orientation has fewer than
    three angles ([IndexError]); or the mapping lacks the attribute
    [indentifiers] or [structures] ([AttributeError]), in which case every
    (phase, orientation) had been simulated and had passed lines 115-118
    before. *)
Theorem exceptions_have_a_cause h e w' :
  run_checked (init_world h) = (inl e, w') ->
  (exists pre call, calls w' = pre ++ [call] /\ simulate call = inl e) \/
  (exists pre call data,
      calls w' = pre ++ [call] /\ simulate call = inr data /\
      calibration_error checks data calibration = Some e) \/
  (exists pre call data,
      calls w' = pre ++ [call] /\ simulate call = inr data /\
      calibration_error checks data calibration = None /\
      coordinates_error checks
        (DiffractionSimulation.set_calibration data calibration) half_shape
      = Some e) \/
  (e = IndexError /\
   exists key entry (o : Orientation),
     Dict.get PhaseId_eq_dec key items = Some entry /\
     In o (snd entry) /\ length o < 3) \/
  (e = AttributeError "indentifiers" /\ sl_indentifiers mapping = None /\
   Forall succeeded (calls w') /\ Forall passes (calls w') /\
   map signature (calls w') = planned items (Dict.keys items)) \/
  (e = AttributeError "structures" /\ sl_structures mapping = None /\
   sl_indentifiers mapping <> None /\
   Forall succeeded (calls w') /\ Forall passes (calls w') /\
   map signature (calls w') = planned items (Dict.keys items)).
Proof.
  rewrite get_diffraction_library_checked_run. intros Hrun.
  apply get_diffraction_library_error in Hrun. simpl in Hrun.
  destruct Hrun
    as [(pre & call & Hcalls & Hfail)
       |[Harity
        |[(He & Hnone & Hall & Hplan)|(He & Hnone & Hids & Hall & Hplan)]]].
  - rewrite simulate_checked in Hfail.
    destruct (simulate call) as [e0|data] eqn:Hsim.
    + left. exists pre, call. split; congruence.
    + right. unfold raised_after in Hfail.
      destruct (calibration_error checks data calibration) as [e1|] eqn:Hset.
      * left. exists pre, call, data. repeat split; congruence.
      * right. left. exists pre, call, data.
        destruct (coordinates_error checks _ half_shape) as [e2|] eqn:Hco;
          [|discriminate].
        repeat split; congruence.
  - right. right. right. left. exact Harity.
  - right. right. right. right. left.
    apply all_succeeded_checked in Hall. destruct Hall. repeat split; assumption.
  - right. right. right. right. right.
    apply all_succeeded_checked in Hall. destruct Hall. repeat split; assumption.
Qed.

(** X2. The call returns a library exactly when every orientation of every
    phase has at least three angles, every simulator call of the run
    succeeded, lines 115-118 raised on none of the simulations and the
    mapping carries both attributes. *)
Theorem library_returned_iff h res w' :
  run_checked (init_world h) = (res, w') ->
  ((exists lib, res = inr lib) <->
   (forall key entry,
       Dict.get PhaseId_eq_dec key items = Some entry ->
       Forall (fun o : Orientation => 3 <= length o) (snd entry)) /\
   Forall succeeded (calls w') /\
   Forall passes (calls w') /\
   sl_indentifiers mapping <> None /\
   sl_structures mapping <> None).
Proof.
  rewrite get_diffraction_library_checked_run. intros Hrun.
  apply get_diffraction_library_returned in Hrun. simpl in Hrun.
  rewrite Hrun, all_succeeded_checked. tauto.
Qed.

End LibraryChecked.

(** ** Further properties of [get_vector_library] *)

Section VectorsMore.
Context {N : Numerics} {E : Externals}.
Variable reciprocal_radius : F.

Lemma Forall2_in_left {A B} (R : A -> B -> Prop) l1 l2 x :
  Forall2 R l1 l2 -> In x l1 -> exists y, In y l2 /\ R x y.
Proof.
  induction 1 as [|a b l1 l2 Hab _ IH]; intros Hin; [contradiction|].
  destruct Hin as [<-|Hin].
  - exists b. split; [left; reflexivity|assumption].
  - destruct (IH Hin) as (y & Hy & HR). exists y. split; [right; assumption|assumption].
Qed.

Lemma pair_loop_returns_in_range indices coordinates distances :
  forall pairs acc w,
  Forall (fun p : nat * nat =>
            (fst p < length indices /\ snd p < length indices) /\
            (fst p < length coordinates /\ snd p < length coordinates) /\
            (fst p < length distances /\ snd p < length distances)) pairs ->
  exists phase_vectors,
    foldM (pair_body indices coordinates distances) (map comb_of pairs) acc w
    = (inr phase_vectors, w).
Proof.
  induction pairs as [|p pairs IH]; intros acc w Hall.
  - exists acc. reflexivity.
  - apply Forall_cons_iff in Hall.
    destruct Hall as [((Hi1 & Hi2) & (Hc1 & Hc2) & (Hd1 & Hd2)) Hrest].
    simpl. unfold bind. rewrite pair_body_run.
    destruct (nth_error indices (fst p)) eqn:H1;
      [|apply nth_error_None in H1; lia].
    destruct (nth_error indices (snd p)) eqn:H2;
      [|apply nth_error_None in H2; lia].
    destruct (nth_error distances (fst p)) eqn:H3;
      [|apply nth_error_None in H3; lia].
    destruct (nth_error distances (snd p)) eqn:H4;
      [|apply nth_error_None in H4; lia].
    destruct (nth_error coordinates (fst p)) eqn:H5;
      [|apply nth_error_None in H5; lia].
    destruct (nth_error coordinates (snd p)) eqn:H6;
      [|apply nth_error_None in H6; lia].
    apply IH. assumption.
Qed.

Lemma vector_loop_returns_in_range items keys w :
  (forall key, In key keys ->
     exists entry, Dict.get PhaseId_eq_dec key items = Some entry) ->
  (forall key entry,
     Dict.get PhaseId_eq_dec key items = Some entry ->
     let points := points_of (store w) reciprocal_radius entry in
     let n := length (fst (fst points)) in
     2 <= n -> n <= length (snd (fst points)) /\ n <= length (snd points)) ->
  forall vector_library, exists lib,
    foldM (vector_phase_body items reciprocal_radius) keys vector_library w
    = (inr lib, w).
Proof.
  intros Hkeys Hpoints.
  induction keys as [|key keys IH]; intros vlib.
  - exists vlib. reflexivity.
  - simpl. unfold bind. rewrite vector_phase_body_run.
    destruct (Hkeys key (or_introl eq_refl)) as [entry Hget]. rewrite Hget.
    cbv zeta. rewrite combinations_two.
    specialize (Hpoints key entry Hget). cbv zeta in Hpoints.
    edestruct pair_loop_returns_in_range as [pv Hpv]; [|rewrite Hpv].
    + apply Forall_forall. intros [i j] Hin. apply arange_pairs in Hin.
      simpl. destruct Hpoints as [Hco Hdi]; [lia|]. lia.
    + apply IH. intros k Hk. apply Hkeys. right. assumption.
Qed.

Lemma vector_loop_ignores_orientations items1 items2 :
  (forall key,
      option_map fst (Dict.get PhaseId_eq_dec key items1) =
      option_map fst (Dict.get PhaseId_eq_dec key items2)) ->
  forall keys vector_library w,
    foldM (vector_phase_body items1 reciprocal_radius) keys vector_library w =
    foldM (vector_phase_body items2 reciprocal_radius) keys vector_library w.
Proof.
  intros Hsame. induction keys as [|key keys IH]; intros vlib w; [reflexivity|].
  simpl. unfold bind. rewrite !vector_phase_body_run.
  specialize (Hsame key).
  destruct (Dict.get PhaseId_eq_dec key items1) as [entry1|];
    destruct (Dict.get PhaseId_eq_dec key items2) as [entry2|];
    try discriminate; [|reflexivity].
  injection Hsame as Hfst. cbv zeta. unfold points_of. rewrite Hfst.
  destruct (foldM (pair_body _ _ _) _ _ w) as [[e|pv] w1]; [reflexivity|].
  apply IH.
Qed.

Variable self : VectorLibraryGenerator.

Local Abbreviation items := (sl_items (struct_lib (vg_structures self))).
Local Abbreviation mapping := (struct_lib (vg_structures self)).

(** X8. [get_vector_library] only reads: whatever its outcome, it changes no
    structure and calls no simulator. *)
Theorem vector_library_only_reads w res w' :
  get_vector_library self reciprocal_radius w = (res, w') -> w' = w.
Proof.
  rewrite get_vector_library_run.
  destruct (foldM _ _ _ _) as [res0 w0] eqn:Hloop. intros Hrun.
  apply vector_loop_spec in Hloop. destruct Hloop as [-> _].
  destruct res0 as [e|lib0]; [congruence|].
  destruct (sl_indentifiers _); [|congruence].
  destruct (sl_structures _); congruence.
Qed.

(** X9. [get_vector_library] returns a library exactly when the mapping
    carries both attributes and, for every phase with at least two points in
    the sphere, the helper's coordinates and distances are at least as long
    as its indices; a phase with fewer than two points is never indexed. *)
Theorem vector_library_returned_iff h res w' :
  get_vector_library self reciprocal_radius (init_world h) = (res, w') ->
  ((exists lib, res = inr lib) <->
   (forall key entry,
       Dict.get PhaseId_eq_dec key items = Some entry ->
       let points := points_of h reciprocal_radius entry in
       let n := length (fst (fst points)) in
       2 <= n -> n <= length (snd (fst points)) /\ n <= length (snd points)) /\
   sl_indentifiers mapping <> None /\
   sl_structures mapping <> None).
Proof.
  intros Hrun. split.
  - intros [lib ->].
    pose proof Hrun as Hspec. apply get_vector_library_spec in Hspec.
    destruct Hspec as (_ & Hids & Hstructs & Hin & _).
    split; [|split; congruence].
    intros key entry Hget points n Hn.
    destruct (Hin key) as (entry' & records & Hget' & _ & Hall).
    { apply get_in_keys with (K_eq_dec := PhaseId_eq_dec). eauto. }
    assert (entry' = entry) by congruence. subst entry'.
    unfold records_of_points in Hall. fold points in Hall. fold n in Hall.
    assert (Hpair : In (n - 2, n - 1) (all_pairs (arange n)))
      by (apply arange_pairs; lia).
    destruct (Forall2_in_left _ Hall Hpair)
      as (record & _ & _ & _ & _ & Hd & ci & cj & _ & Hc & _).
    simpl in Hd, Hc.
    assert (Hd' : nth_error (snd points) (n - 1) <> None) by congruence.
    assert (Hc' : nth_error (snd (fst points)) (n - 1) <> None) by congruence.
    apply nth_error_Some in Hd', Hc'. lia.
  - intros (Hpoints & Hids & Hstructs).
    rewrite get_vector_library_run in Hrun.
    edestruct (vector_loop_returns_in_range items (Dict.keys items) (init_world h))
      as [lib0 Hlib0].
    + intros key Hin. apply get_in_keys with (K_eq_dec := PhaseId_eq_dec) in Hin.
      exact Hin.
    + exact Hpoints.
    + rewrite Hlib0 in Hrun.
      destruct (sl_indentifiers _); [|contradiction].
      destruct (sl_structures _); [|contradiction].
      eexists. injection Hrun as <- _. reflexivity.
Qed.

(** X11. The vector library does not depend on the orientation lists: two
    structure libraries whose mappings have the same keys in the same order,
    the same structure for each key and the same attributes give the same
    outcome. *)
Theorem vector_library_ignores_orientations (other : VectorLibraryGenerator) w :
  Dict.keys (sl_items (struct_lib (vg_structures other))) = Dict.keys items ->
  (forall key,
      option_map fst (Dict.get PhaseId_eq_dec key
                        (sl_items (struct_lib (vg_structures other)))) =
      option_map fst (Dict.get PhaseId_eq_dec key items)) ->
  sl_indentifiers (struct_lib (vg_structures other)) = sl_indentifiers mapping ->
  sl_structures (struct_lib (vg_structures other)) = sl_structures mapping ->
  get_vector_library other reciprocal_radius w =
  get_vector_library self reciprocal_radius w.
Proof.
  intros Hkeys Hrefs Hids Hstructs.
  unfold get_vector_library, bind.
  rewrite Hkeys, Hids, Hstructs.
  rewrite (vector_loop_ignores_orientations _ _ Hrefs). reflexivity.
Qed.

End VectorsMore.

(** ** The further properties on the concrete libraries *)

Lemma demo_fails : fst Demo.run_failing = inl (SimulationFailure 7).
Proof. vm_compute. reflexivity. Defined.

Lemma demo_run_failing :
  Demo.run_failing = (inl (SimulationFailure 7), snd Demo.run_failing).
Proof.
  exact (eq_trans (surjective_pairing Demo.run_failing)
           (f_equal (fun r => (r, snd Demo.run_failing)) demo_fails)).
Defined.

Lemma demo_uncalibrated_fails : fst Demo.run_uncalibrated = inl ValueError.
Proof. vm_compute. reflexivity. Defined.

Lemma demo_run_uncalibrated :
  Demo.run_uncalibrated = (inl ValueError, snd Demo.run_uncalibrated).
Proof.
  exact (eq_trans (surjective_pairing Demo.run_uncalibrated)
           (f_equal (fun r => (r, snd Demo.run_uncalibrated))
              demo_uncalibrated_fails)).
Defined.

(** Witness of X1: with the calibration 0 the setter of the example rejects
    the value on the simulation of the first call, and the call ends with
    its [ValueError]. *)
Lemma exceptions_have_a_cause_witness :
  exists pre call data,
    calls (snd Demo.run_uncalibrated) = pre ++ [call] /\
    simulate (electron_diffraction_calculator Demo.generator) 3%Z true call
    = inr data /\
    calibration_error Demo.checks data 0%Z = Some ValueError.
Proof.
  destruct (@exceptions_have_a_cause
              Demo.numerics Demo.externals Demo.checks
              Demo.generator Demo.library 0%Z 3%Z (72, 72)%Z true
              Demo.heap ValueError (snd Demo.run_uncalibrated)
              demo_run_uncalibrated)
    as [(pre & call & _ & Hsim)
       |[Hset
        |[(pre & call & data & _ & _ & Hnone & _)
         |[(He & _)|[(He & _)|(He & _)]]]]].
  - exfalso. unfold simulate, Demo.generator, Demo.diffractor in Hsim.
    simpl in Hsim.
    destruct (Lattice.baserot (Structure.lattice (call_structure call)) =? 99)%Z;
      discriminate Hsim.
  - exact Hset.
  - discriminate Hnone.
  - discriminate He.
  - discriminate He.
  - discriminate He.
Defined.

Lemma demo_checked_returns : fst Demo.run_checked = inr Demo.returned_library.
Proof. vm_compute. reflexivity. Defined.

(** Witness of X2: with the calibration 2 the example run returns a library,
    so all of its simulator calls succeeded and passed lines 115-118. *)
Lemma library_returned_iff_witness :
  Forall (succeeded (electron_diffraction_calculator Demo.generator) 3%Z true)
    (calls (snd Demo.run_checked)) /\
  Forall (passes_checks Demo.checks
            (electron_diffraction_calculator Demo.generator)
            2%Z 3%Z (72, 72)%Z true)
    (calls (snd Demo.run_checked)).
Proof.
  pose proof (proj2 (proj1 (@library_returned_iff
                         Demo.numerics Demo.externals Demo.checks
                         Demo.generator Demo.library 2%Z 3%Z (72, 72)%Z true
                         Demo.heap (fst Demo.run_checked) (snd Demo.run_checked)
                         (surjective_pairing Demo.run_checked))
                       (ex_intro _ Demo.returned_library demo_checked_returns)))
    as H.
  exact (conj (proj1 H) (proj1 (proj2 H))).
Defined.

(** Witness of X3: after the failing run the structure of phase 2 is the one
    that was handed to the failing call. *)
Lemma failed_call_leaves_structure_rotated_witness :
  exists entry matrix,
    Dict.get (PhaseId_eq_dec (Numerics := Demo.numerics))
      (call_key Demo.failing_call) (sl_items (struct_lib Demo.failing_library))
    = Some entry /\
    store (snd Demo.run_failing) (fst entry) = call_structure Demo.failing_call /\
    rotation_of (call_orientation Demo.failing_call) = Some matrix /\
    Structure.lattice (store (snd Demo.run_failing) (fst entry)) =
      rotated_lattice (Structure.lattice (Demo.heap (fst entry))) matrix.
Proof.
  exact (@failed_call_leaves_structure_rotated
           Demo.numerics Demo.externals
           Demo.generator Demo.failing_library 2%Z 3%Z (72, 72)%Z true
           Demo.heap (fst Demo.run_failing) (snd Demo.run_failing)
           Demo.calls_before_failure Demo.failing_call (SimulationFailure 7)
           (surjective_pairing Demo.run_failing)
           demo_failing_calls demo_failing_call).
Defined.

Lemma demo_structure_five_unused :
  forall key entry,
    Dict.get (PhaseId_eq_dec (Numerics := Demo.numerics)) key
      (sl_items (struct_lib Demo.library)) = Some entry ->
    fst entry <> 5 \/ snd entry = [].
Proof.
  intros key entry Hget. left. simpl in Hget.
  repeat match type of Hget with
         | context [if ?d then _ else _] => destruct d
         end;
    try discriminate Hget; injection Hget as <-; discriminate.
Defined.

(** Witness of X4: no phase of the example library refers to the structure
    5, which the example run leaves as it was. *)
Lemma other_structures_untouched_witness :
  store (snd Demo.run_library) 5 = Demo.heap 5.
Proof.
  exact (proj2 (@other_structures_untouched
                  Demo.numerics Demo.externals
                  Demo.generator Demo.library 2%Z 3%Z (72, 72)%Z true
                  Demo.heap (fst Demo.run_library) (snd Demo.run_library)
                  (surjective_pairing Demo.run_library))
           5 demo_structure_five_unused).
Defined.

Lemma demo_heaps_agree :
  stores_agree (E := Demo.externals) Demo.heap Demo.turned_heap.
Proof.
  intros r. split; [reflexivity|].
  intros L. unfold Structure.placeInLattice. simpl. f_equal. lia.
Defined.

(** Witness of X5: the example library gives the same outcome on the
    structures seen in another lattice. *)
Lemma outcome_depends_on_placement_witness :
  fst Demo.run_library =
  fst (get_diffraction_library (E := Demo.externals) Demo.generator Demo.library
         2%Z 3%Z (72%Z, 72%Z) true (init_world Demo.turned_heap)).
Proof.
  exact (@outcome_depends_on_placement
           Demo.numerics Demo.externals
           Demo.generator Demo.library 2%Z 3%Z (72, 72)%Z true
           Demo.heap Demo.turned_heap demo_heaps_agree).
Defined.

(** Witness of X6: the phase keys of the returned example library. *)
Lemma keys_in_order_of_first_storage_witness :
  Dict.keys (dl_items Demo.returned_library) =
  first_occurrences (PhaseId_eq_dec (Numerics := Demo.numerics))
    (map call_key
       (filter (kept (electron_diffraction_calculator Demo.generator) 3%Z true)
          (calls (snd Demo.run_library)))).
Proof.
  exact (proj1 (@keys_in_order_of_first_storage
                  Demo.numerics Demo.externals
                  Demo.generator Demo.library 2%Z 3%Z (72, 72)%Z true
                  Demo.heap Demo.returned_library (snd Demo.run_library)
                  demo_keys_distinct demo_run_library)).
Defined.

(** Witness of X7: the returned example library has no more phases than the
    example mapping. *)
Lemma library_within_input_witness :
  length (dl_items Demo.returned_library) <=
  length (sl_items (struct_lib Demo.library)).
Proof.
  exact (proj1 (proj2 (@library_within_input
                         Demo.numerics Demo.externals
                         Demo.generator Demo.library 2%Z 3%Z (72, 72)%Z true
                         Demo.heap Demo.returned_library (snd Demo.run_library)
                         demo_keys_distinct demo_run_library))).
Defined.

(** Witness of X10: repeating the failing run fails in the same way. *)
Lemma repeated_call_reproduces_outcome_witness :
  fst (get_diffraction_library (E := Demo.externals) Demo.generator
         Demo.failing_library 2%Z 3%Z (72%Z, 72%Z) true (snd Demo.run_failing))
  = fst Demo.run_failing.
Proof.
  exact (@repeated_call_reproduces_outcome
           Demo.numerics Demo.externals
           Demo.generator Demo.failing_library 2%Z 3%Z (72, 72)%Z true
           Demo.heap (fst Demo.run_failing) (snd Demo.run_failing)
           demo_placement_absorbs (surjective_pairing Demo.run_failing)).
Defined.

(** Witness of X8: the example vector run leaves the world as it found it. *)
Lemma vector_library_only_reads_witness :
  snd Demo.run_vectors = init_world Demo.heap.
Proof.
  exact (@vector_library_only_reads
           Demo.numerics Demo.externals 3%Z Demo.vector_generator
           (init_world Demo.heap) (fst Demo.run_vectors) (snd Demo.run_vectors)
           (surjective_pairing Demo.run_vectors)).
Defined.

Lemma demo_points_long_enough :
  forall key entry,
    Dict.get (PhaseId_eq_dec (Numerics := Demo.numerics)) key
      (sl_items (struct_lib (vg_structures Demo.vector_generator))) = Some entry ->
    let points := points_of (E := Demo.externals) Demo.heap 3%Z entry in
    let n := length (fst (fst points)) in
    2 <= n -> n <= length (snd (fst points)) /\ n <= length (snd points).
Proof.
  intros key entry _ points n _. split; apply Nat.le_refl.
Defined.

(** Witness of X9: the helper of the example returns sequences of one
    length and the example mapping has its attributes, so the vector run
    returns a library. *)
Lemma vector_library_returned_iff_witness :
  exists lib, fst Demo.run_vectors = inr lib.
Proof.
  refine (proj2 (@vector_library_returned_iff
                   Demo.numerics Demo.externals 3%Z Demo.vector_generator
                   Demo.heap (fst Demo.run_vectors) (snd Demo.run_vectors)
                   (surjective_pairing Demo.run_vectors))
            (conj demo_points_long_enough (conj _ _))); discriminate.
Defined.

Lemma demo_same_structures :
  forall key,
    option_map fst
      (Dict.get (PhaseId_eq_dec (Numerics := Demo.numerics)) key
         (sl_items (struct_lib (vg_structures Demo.reoriented_generator)))) =
    option_map fst
      (Dict.get (PhaseId_eq_dec (Numerics := Demo.numerics)) key
         (sl_items (struct_lib (vg_structures Demo.vector_generator)))).
Proof.
  intros key. simpl.
  repeat match goal with
         | |- context [if ?d then _ else _] => destruct d
         end; reflexivity.
Defined.

(** Witness of X11: the example library with other orientation lists gives
    the same vector library. *)
Lemma vector_library_ignores_orientations_witness :
  get_vector_library (E := Demo.externals) Demo.reoriented_generator 3%Z
    (init_world Demo.heap)
  = Demo.run_vectors.
Proof.
  exact (@vector_library_ignores_orientations
           Demo.numerics Demo.externals 3%Z Demo.vector_generator
           Demo.reoriented_generator (init_world Demo.heap)
           eq_refl demo_same_structures eq_refl eq_refl).
Defined.
